(** * uhc-cli, package [config]: the client configuration and its armed check

    A shallow embedding of [pkg/config/config.go].  The package keeps the
    credentials of the command line client in a JSON file under the home
    directory ([Load], [Save], [Remove], [Location]) and decides whether a
    configuration can still authenticate requests ([Armed], [tokenExpiry]).

    Go values are modelled as follows.
    - [string] is a Rocq [string]; the empty Go string is [EmptyString].
    - [error] is an inductive with the message of the error; a nil error is
      [None].  Functions of the package return the tuples of their named
      results, so that "armed together with an error" is expressible.
    - [time.Time] is an instant counted in nanoseconds from the Unix epoch,
      [time.Duration] a signed 64-bit count of nanoseconds.
    - [float64] is [spec_float] of the Standard Library.
    - Functions of other packages (jwt-go, encoding/json, path/filepath) are
      variables of a section: every theorem holds for each implementation.
      The round trip of [Save] and [Load] depends on the text that
      encoding/json writes and reads, so it is stated on [go_indent] and
      [go_parse], the encoder and the decoder of that package.
    - The process environment and the file system are an explicit [OS]
      state threaded through [Load], [Save] and [Remove]; the state tells
      which operations the system refuses, and how much of a file a write
      that fails leaves behind. *)

From Stdlib Require Import ZArith Lia Bool Ascii String List.
From Stdlib Require Import SpecFloat.
From stdpp Require Import base option strings list gmap.

Set Warnings "-register-all".

Local Open Scope string_scope.
Local Open Scope Z_scope.

(** ** Errors *)

(** A Go [error].  [os.IsNotExist] tells the errors that report a missing
    file from all others; every error carries its message. *)
Inductive error : Type :=
| ErrNotExist (msg : string)
| ErrOther (msg : string).

Definition Error (e : error) : string :=
  match e with
  | ErrNotExist msg => msg
  | ErrOther msg => msg
  end.

(** [fmt.Errorf] with the message already formatted. *)
Definition Errorf (msg : string) : error := ErrOther msg.

(** [os.IsNotExist]: false on the nil error. *)
Definition IsNotExist (err : option error) : bool :=
  match err with
  | Some (ErrNotExist _) => true
  | _ => false
  end.

(** The outcome of a call into another package: a value or an error. *)
Inductive result (A : Type) : Type :=
| Ok (a : A)
| Err (e : error).
Arguments Ok {A} a.
Arguments Err {A} e.

(** ** Integers, time and durations *)

Definition MinInt64 : Z := - 2 ^ 63.
Definition MaxInt64 : Z := 2 ^ 63 - 1.

Definition in_int64 (z : Z) : bool := (MinInt64 <=? z) && (z <=? MaxInt64).

(** Two's complement wrap-around of 64-bit signed arithmetic. *)
Definition wrap64 (z : Z) : Z := (z + 2 ^ 63) mod 2 ^ 64 - 2 ^ 63.

(** [time.Duration]: nanoseconds as an int64. *)
Definition Duration : Type := Z.
Definition Nanosecond : Duration := 1.
Definition Second : Duration := 1000000000 * Nanosecond.
Definition minDuration : Duration := MinInt64.
Definition maxDuration : Duration := MaxInt64.

(** [time.Time]: an instant, in nanoseconds since January 1, 1970 UTC. *)
Definition Time : Type := Z.

(** Seconds from year 1 to 1970, the offset of the internal clock of
    package time. *)
Definition unixToInternal : Z :=
  (1969 * 365 + 1969 / 4 - 1969 / 100 + 1969 / 400) * 86400.

(** [time.Unix(sec, nsec)] for [0 <= nsec < 1e9].  The package stores
    [sec + unixToInternal] in an int64, which wraps for the largest [sec]. *)
Definition time_Unix (sec nsec : Z) : Time :=
  (wrap64 (sec + unixToInternal) - unixToInternal) * Second + nsec.

(** [t.Sub(u)]: the duration [t - u], or the maximum (minimum) duration
    when the difference does not fit one. *)
Definition Sub (t u : Time) : Duration :=
  let d := t - u in
  if d <? minDuration then minDuration
  else if maxDuration <? d then maxDuration
  else d.

(** ** float64 *)

Definition float64 : Type := spec_float.

(** [x == 0] on float64: true on both zeros, false on NaN. *)
Definition float64_is_zero (x : float64) : bool := SFeqb x (S754_zero false).

(** The integer part of a finite float64, rounded toward zero. *)
Definition float64_trunc (x : float64) : option Z :=
  match x with
  | S754_zero _ => Some 0
  | S754_finite s m e =>
      let mag := Z.shiftl (Z.pos m) e in
      Some (if s then - mag else mag)
  | S754_infinity _ => None
  | S754_nan => None
  end.

Section Config.

(** The conversion [int64(x)] of a float64 that has no int64 value (NaN,
    infinities, out of range): the language leaves the result to the
    implementation. *)
Variable int64_indefinite : float64 -> Z.

(** [int64(x)] for a float64 [x]. *)
Definition int64_of_float64 (x : float64) : Z :=
  match float64_trunc x with
  | Some z => if in_int64 z then z else wrap64 (int64_indefinite x)
  | None => wrap64 (int64_indefinite x)
  end.

(** ** Tokens (package jwt-go) *)

(** The dynamic values of a [map[string]interface{}] filled by the JSON
    decoder: numbers are float64. *)
Inductive value : Type :=
| VNil
| VBool (b : bool)
| VFloat64 (f : float64)
| VString (s : string)
| VArray (l : list value)
| VMap (m : list (string * value)).

(** The verb [%T]: the Go type of a dynamic value. *)
Definition type_name (v : value) : string :=
  match v with
  | VNil => "<nil>"
  | VBool _ => "bool"
  | VFloat64 _ => "float64"
  | VString _ => "string"
  | VArray _ => "[]interface {}"
  | VMap _ => "map[string]interface {}"
  end.

(** [jwt.Claims]: the claims of a token are [jwt.MapClaims] or a value of
    another type, of which only the type name matters here. *)
Inductive Claims : Type :=
| MapClaims (m : gmap string value)
| OtherClaims (go_type : string).

Record jwt_Token : Type := { Token_Claims : Claims }.

(** [new(jwt.Parser).ParseUnverified(text, jwt.MapClaims{})]: the token
    decoded without checking its signature, or the error of the parser. *)
Variable ParseUnverified : string -> result jwt_Token.

(** ** The configuration *)

(** The slice [Scopes] is [None] when it is nil, which Go tells from a
    slice without elements. *)
Record Config : Type := {
  AccessToken : string;
  ClientID : string;
  ClientSecret : string;
  Insecure : bool;
  Password : string;
  RefreshToken : string;
  Scopes : option (list string);
  Token : string;
  TokenURL : string;
  URL : string;
  User : string
}.

(** The Go test [s != ""]. *)
Definition nonempty (s : string) : bool :=
  match s with
  | EmptyString => false
  | String _ _ => true
  end.

(** [tokenExpiry(text, now)]: the named results [(expires, left, err)]. *)
Definition tokenExpiry (text : string) (now : Time)
  : bool * Duration * option error :=
  match ParseUnverified text with
  | Err err => (false, 0, Some (Errorf ("cant parse token: " +:+ Error err)))
  | Ok token =>
      match Token_Claims token with
      | OtherClaims _ =>
          (* %T prints the zero MapClaims left by the failed assertion *)
          (false, 0, Some (Errorf "expected map claims bug got jwt.MapClaims"))
      | MapClaims claims =>
          match claims !! "exp" with
          | None =>
              (false, 0, Some (Errorf "token doesn't contain the 'exp' claim"))
          | Some claim =>
              match claim with
              | VFloat64 exp =>
                  if float64_is_zero exp then (false, 0, None)
                  else (true, Sub (time_Unix (int64_of_float64 exp) 0) now, None)
              | _ =>
                  (false, 0,
                   Some (Errorf ("expected floating point 'exp' but got "
                                 +:+ type_name claim)))
              end
          end
      end
  end.

(** [Armed(cfg)], with the reading [now] of [time.Now()]; the named results
    [(armed, err)], which start as [(false, nil)].  Each of the two token
    blocks either executes a [return] ([Some] of the results) or falls
    through ([None]) to the statement after it. *)
Definition Armed (cfg : Config) (now : Time) : bool * option error :=
  if nonempty (User cfg) && nonempty (Password cfg) then (true, None)
  else if nonempty (ClientID cfg) && nonempty (ClientSecret cfg) then (true, None)
  else
    match
      (if nonempty (AccessToken cfg) then
         match tokenExpiry (AccessToken cfg) now with
         | (_, _, Some err) => Some (false, Some err)
         | (expires, left_, None) =>
             if negb expires || (5 * Second <? left_) then Some (true, None)
             else None
         end
       else None)
    with
    | Some results => results
    | None =>
        match
          (if nonempty (RefreshToken cfg) then
             match tokenExpiry (RefreshToken cfg) now with
             | (_, _, Some err) => Some (false, Some err)
             | (expires, left_, None) =>
                 if negb expires || (10 * Second <? left_) then Some (true, None)
                 else None
             end
           else None)
        with
        | Some results => results
        | None => (false, None)
        end
    end.

(** ** The JSON form of the configuration (package encoding/json) *)

(** A JSON document as a tree.  An object keeps its members in the order
    of the text, repeated keys included; a number keeps its literal. *)
Inductive json : Type :=
| JNull
| JBool (b : bool)
| JNumber (literal : string)
| JString (s : string)
| JArray (elements : list json)
| JObject (members : list (string * json)).

(** The text of a tree as [json.MarshalIndent] lays it out, for a prefix
    and an indentation. *)
Variable json_indent : string -> string -> json -> string.

(** The tree of a JSON text, or the syntax error of the decoder. *)
Variable json_parse : string -> result json.

(** The fields of [Config], in the order of the struct. *)
Inductive field : Type :=
| FAccessToken | FClientID | FClientSecret | FInsecure | FPassword
| FRefreshToken | FScopes | FToken | FTokenURL | FURL | FUser.

#[local] Instance field_eq_dec : EqDecision field.
Proof. solve_decision. Defined.

Definition fields : list field :=
  [FAccessToken; FClientID; FClientSecret; FInsecure; FPassword;
   FRefreshToken; FScopes; FToken; FTokenURL; FURL; FUser].

(** The name in the [json] tag of each field. *)
Definition field_name (f : field) : string :=
  match f with
  | FAccessToken => "access_token"
  | FClientID => "client_id"
  | FClientSecret => "client_secret"
  | FInsecure => "insecure"
  | FPassword => "password"
  | FRefreshToken => "refresh_token"
  | FScopes => "scopes"
  | FToken => "token"
  | FTokenURL => "token_url"
  | FURL => "url"
  | FUser => "user"
  end.

(** Every tag says [omitempty]: a member is written only for a non-empty
    string, a true boolean, a slice with elements. *)
Definition omitempty_string (f : field) (s : string) : list (string * json) :=
  if nonempty s then [(field_name f, JString s)] else [].

Definition omitempty_bool (f : field) (b : bool) : list (string * json) :=
  if b then [(field_name f, JBool true)] else [].

Definition omitempty_strings (f : field) (l : option (list string))
  : list (string * json) :=
  match l with
  | Some (s :: l') => [(field_name f, JArray (JString <$> s :: l'))]
  | _ => []
  end.

(** The object that [json.Marshal] builds for a configuration. *)
Definition Config_json (cfg : Config) : json :=
  JObject
    (omitempty_string FAccessToken (AccessToken cfg)
     ++ omitempty_string FClientID (ClientID cfg)
     ++ omitempty_string FClientSecret (ClientSecret cfg)
     ++ omitempty_bool FInsecure (Insecure cfg)
     ++ omitempty_string FPassword (Password cfg)
     ++ omitempty_string FRefreshToken (RefreshToken cfg)
     ++ omitempty_strings FScopes (Scopes cfg)
     ++ omitempty_string FToken (Token cfg)
     ++ omitempty_string FTokenURL (TokenURL cfg)
     ++ omitempty_string FURL (URL cfg)
     ++ omitempty_string FUser (User cfg)).

(** [json.MarshalIndent(cfg, prefix, indent)]: no value of a [Config]
    makes the encoder fail. *)
Definition MarshalIndent (cfg : Config) (prefix indent : string)
  : string * option error :=
  (json_indent prefix indent (Config_json cfg), None).

(** [new(Config)]: every field has its zero value. *)
Definition new_Config : Config :=
  {| AccessToken := EmptyString; ClientID := EmptyString;
     ClientSecret := EmptyString; Insecure := false;
     Password := EmptyString; RefreshToken := EmptyString;
     Scopes := None; Token := EmptyString; TokenURL := EmptyString;
     URL := EmptyString; User := EmptyString |}.

(** Assignment to one field, by the type of the field. *)
Definition set_string (f : field) (s : string) (c : Config) : Config :=
  let pick (g : field) (old : string) := if decide (f = g) then s else old in
  {| AccessToken := pick FAccessToken (AccessToken c);
     ClientID := pick FClientID (ClientID c);
     ClientSecret := pick FClientSecret (ClientSecret c);
     Insecure := Insecure c;
     Password := pick FPassword (Password c);
     RefreshToken := pick FRefreshToken (RefreshToken c);
     Scopes := Scopes c;
     Token := pick FToken (Token c);
     TokenURL := pick FTokenURL (TokenURL c);
     URL := pick FURL (URL c);
     User := pick FUser (User c) |}.

Definition set_Insecure (b : bool) (c : Config) : Config :=
  {| AccessToken := AccessToken c; ClientID := ClientID c;
     ClientSecret := ClientSecret c; Insecure := b;
     Password := Password c; RefreshToken := RefreshToken c;
     Scopes := Scopes c; Token := Token c; TokenURL := TokenURL c;
     URL := URL c; User := User c |}.

Definition set_Scopes (l : option (list string)) (c : Config) : Config :=
  {| AccessToken := AccessToken c; ClientID := ClientID c;
     ClientSecret := ClientSecret c; Insecure := Insecure c;
     Password := Password c; RefreshToken := RefreshToken c;
     Scopes := l; Token := Token c; TokenURL := TokenURL c;
     URL := URL c; User := User c |}.

(** The string fields of the configuration. *)
Definition is_string_field (f : field) : bool :=
  match f with
  | FInsecure => false
  | FScopes => false
  | _ => true
  end.

Definition get_string (f : field) (c : Config) : string :=
  match f with
  | FAccessToken => AccessToken c
  | FClientID => ClientID c
  | FClientSecret => ClientSecret c
  | FPassword => Password c
  | FRefreshToken => RefreshToken c
  | FToken => Token c
  | FTokenURL => TokenURL c
  | FURL => URL c
  | FUser => User c
  | FInsecure => EmptyString
  | FScopes => EmptyString
  end.

(** The decoder matches the key of a member with the tag of a field by
    equality or else by its case-insensitive comparison. *)
Variable equalFold : string -> string -> bool.

Definition find_field (key : string) : option field :=
  match List.find (fun f => String.eqb (field_name f) key) fields with
  | Some f => Some f
  | None => List.find (fun f => equalFold (field_name f) key) fields
  end.

(** The [*json.UnmarshalTypeError] for a JSON value that does not fit the
    Go type of a field, or the [Config] itself. *)
Variable UnmarshalTypeError : json -> option field -> error.

(** An element appended to [Scopes]: a string, or the zero value when the
    element is [null] or does not fit. *)
Definition decode_element (v : json) : string :=
  match v with
  | JString s => s
  | _ => EmptyString
  end.

Definition element_fits (v : json) : bool :=
  match v with
  | JString _ => true
  | JNull => true
  | _ => false
  end.

(** One member decoded into its field.  [null] clears a slice and has no
    effect on a string or a boolean; a value of another type than the
    field is skipped and reported. *)
Definition decode_field (f : field) (v : json) (c : Config)
  : Config * option error :=
  match f, v with
  | FInsecure, JBool b => (set_Insecure b c, None)
  | FInsecure, JNull => (c, None)
  | FInsecure, _ => (c, Some (UnmarshalTypeError v (Some f)))
  | FScopes, JArray l =>
      (set_Scopes (Some (decode_element <$> l)) c,
       match List.find (fun e => negb (element_fits e)) l with
       | Some e => Some (UnmarshalTypeError e (Some f))
       | None => None
       end)
  | FScopes, JNull => (set_Scopes None c, None)
  | FScopes, _ => (c, Some (UnmarshalTypeError v (Some f)))
  | _, JString s => (set_string f s c, None)
  | _, JNull => (c, None)
  | _, _ => (c, Some (UnmarshalTypeError v (Some f)))
  end.

(** The members of an object decoded in order; keys without a field are
    ignored and the earliest type error is the one returned. *)
Fixpoint decode_members (ms : list (string * json)) (c : Config)
  (err : option error) : Config * option error :=
  match ms with
  | [] => (c, err)
  | (key, v) :: ms' =>
      match find_field key with
      | None => decode_members ms' c err
      | Some f =>
          let '(c', e) := decode_field f v c in
          decode_members ms' c' (match err with Some _ => err | None => e end)
      end
  end.

(** [json.Unmarshal(data, cfg)]: the configuration after the call, which
    writes through the pointer, and the error.  A text that is not valid
    JSON leaves the configuration untouched. *)
Definition Unmarshal (data : string) (cfg : Config) : Config * option error :=
  match json_parse data with
  | Err e => (cfg, Some e)
  | Ok JNull => (cfg, None)
  | Ok (JObject ms) => decode_members ms cfg None
  | Ok v => (cfg, Some (UnmarshalTypeError v None))
  end.

(** ** The environment and the file system (packages os, io/ioutil) *)

Inductive fs_op : Type := OpStat | OpRead | OpOpen | OpWrite | OpRemove.

(** The state of the operating system that the package observes: the
    environment variables, the regular files by path, the operations that
    the system refuses (permissions, a directory in the way, a full disk)
    with the error it gives, and, for a file whose writing it refuses, how
    many bytes reach the file before it does. *)
Record OS : Type := {
  environ : gmap string string;
  files : gmap string string;
  refuses : fs_op -> string -> option error;
  short_write : string -> nat
}.

(** [os.Getenv]: the empty string for a variable that is not set. *)
Definition Getenv (os : OS) (key : string) : string :=
  default EmptyString (environ os !! key).

(** [os.Stat(name)], of which the package keeps only the error. *)
Definition Stat (os : OS) (name : string) : option error :=
  match refuses os OpStat name with
  | Some e => Some e
  | None =>
      match files os !! name with
      | Some _ => None
      | None =>
          Some (ErrNotExist ("stat " +:+ name +:+ ": no such file or directory"))
      end
  end.

(** [ioutil.ReadFile(filename)]. *)
Definition ReadFile (os : OS) (filename : string) : result string :=
  match refuses os OpRead filename with
  | Some e => Err e
  | None =>
      match files os !! filename with
      | Some data => Ok data
      | None =>
          Err (ErrNotExist
                 ("open " +:+ filename +:+ ": no such file or directory"))
      end
  end.

(** The first [n] bytes of a string, all of it when it is shorter. *)
Fixpoint string_take (n : nat) (s : string) : string :=
  match n, s with
  | S n', String c s' => String c (string_take n' s')
  | _, _ => EmptyString
  end.

(** [ioutil.WriteFile(filename, data, perm)]: opens the file with
    [O_WRONLY|O_CREATE|O_TRUNC], writes the data and closes the file.  When
    the open is refused nothing changes; once it is open the file is
    empty, and a write or close that fails leaves in it the bytes written
    so far.  The permission bits only matter to other users of the file. *)
Definition WriteFile (os : OS) (filename data : string) (perm : Z)
  : OS * option error :=
  match refuses os OpOpen filename with
  | Some e => (os, Some e)
  | None =>
      match refuses os OpWrite filename with
      | Some e =>
          ({| environ := environ os;
              files := <[filename :=
                           string_take (short_write os filename) data]>
                         (files os);
              refuses := refuses os;
              short_write := short_write os |}, Some e)
      | None =>
          ({| environ := environ os;
              files := <[filename := data]> (files os);
              refuses := refuses os;
              short_write := short_write os |}, None)
      end
  end.

(** [os.Remove(name)]. *)
Definition os_Remove (os : OS) (name : string) : OS * option error :=
  match refuses os OpRemove name with
  | Some e => (os, Some e)
  | None =>
      match files os !! name with
      | Some _ =>
          ({| environ := environ os;
              files := delete name (files os);
              refuses := refuses os;
              short_write := short_write os |}, None)
      | None =>
          (os, Some (ErrNotExist
                       ("remove " +:+ name +:+ ": no such file or directory")))
      end
  end.

(** [filepath.Join] of path elements. *)
Variable filepath_Join : list string -> string.

(** ** The configuration file *)

(** [Location()]: the named results [(path, err)]. *)
Definition Location (os : OS) : string * option error :=
  let home := Getenv os "HOME" in
  if negb (nonempty home) then
    (EmptyString,
     Some (Errorf
             "can't find home directory, HOME environment variable is empty"))
  else (filepath_Join [home; ".uhc.json"], None).

(** [Load()]: the named results [(cfg, err)]; the nil pointer is [None]. *)
Definition Load (os : OS) : option Config * option error :=
  match Location os with
  | (_, Some err) => (None, Some err)
  | (file, None) =>
      let err := Stat os file in
      if IsNotExist err then (None, None)
      else
        match err with
        | Some err =>
            (None,
             Some (Errorf ("can't check if config file '" +:+ file
                           +:+ "' exists: " +:+ Error err)))
        | None =>
            match ReadFile os file with
            | Err err =>
                (None,
                 Some (Errorf ("can't read config file '" +:+ file
                               +:+ "': " +:+ Error err)))
            | Ok data =>
                match Unmarshal data new_Config with
                | (cfg, Some err) =>
                    (Some cfg,
                     Some (Errorf ("can't parse config file '" +:+ file
                                   +:+ "': " +:+ Error err)))
                | (cfg, None) => (Some cfg, None)
                end
            end
        end
  end.

(** [Save(cfg)]: the state after the call and the error. *)
Definition Save (os : OS) (cfg : Config) : OS * option error :=
  match Location os with
  | (_, Some err) => (os, Some err)
  | (file, None) =>
      match MarshalIndent cfg EmptyString "  " with
      | (_, Some err) =>
          (os, Some (Errorf ("can't marshal config: " +:+ Error err)))
      | (data, None) =>
          match WriteFile os file data 384 (* 0600 *) with
          | (os', Some err) =>
              (os', Some (Errorf ("can't write file '" +:+ file
                                  +:+ "': " +:+ Error err)))
          | (os', None) => (os', None)
          end
      end
  end.

(** [Remove()]: the state after the call and the error. *)
Definition Remove (os : OS) : OS * option error :=
  match Location os with
  | (_, Some err) => (os, Some err)
  | (file, None) =>
      if IsNotExist (Stat os file) then (os, None)
      else
        match os_Remove os file with
        | (os', Some err) => (os', Some err)
        | (os', None) => (os', None)
        end
  end.

(** ** Stand-ins for the other packages and sample data

    Simple implementations of the variables above and a few records, on
    which the properties below are run. *)

(** amd64: the conversion of a float64 without int64 value gives the
    "integer indefinite" value [0x8000000000000000]. *)
Definition amd64_indefinite (x : float64) : Z := MinInt64.

(** A parser that knows the claims of the tokens of a table and rejects
    every other text. *)
Definition table_parser (table : gmap string (gmap string value))
  (text : string) : result jwt_Token :=
  match table !! text with
  | Some m => Ok {| Token_Claims := MapClaims m |}
  | None => Err (ErrOther "token contains an invalid number of segments")
  end.

(** The float64 of a positive whole number. *)
Definition float64_of_pos (n : positive) : float64 := S754_finite false n 0.

Definition dquote : string := String (ascii_of_nat 34) EmptyString.
Definition newline : string := String (ascii_of_nat 10) EmptyString.

Definition quoted (s : string) : string := dquote +:+ s +:+ dquote.

Fixpoint sep_by (sep : string) (l : list string) : string :=
  match l with
  | [] => EmptyString
  | [a] => a
  | a :: l' => a +:+ sep +:+ sep_by sep l'
  end.

(** Indented JSON text in the layout of encoding/json, for strings that
    need no escape. *)
Fixpoint plain_indent_at (cur indent : string) (v : json) : string :=
  let inner := cur +:+ indent in
  match v with
  | JNull => "null"
  | JBool b => if b then "true" else "false"
  | JNumber literal => literal
  | JString s => quoted s
  | JArray [] => "[]"
  | JArray l =>
      "[" +:+ newline +:+ inner
      +:+ sep_by ("," +:+ newline +:+ inner)
            (List.map (plain_indent_at inner indent) l)
      +:+ newline +:+ cur +:+ "]"
  | JObject [] => "{}"
  | JObject ms =>
      "{" +:+ newline +:+ inner
      +:+ sep_by ("," +:+ newline +:+ inner)
            (List.map (fun kv => quoted (fst kv) +:+ ": "
                                 +:+ plain_indent_at inner indent (snd kv)) ms)
      +:+ newline +:+ cur +:+ "}"
  end.

Definition plain_indent (prefix indent : string) (v : json) : string :=
  prefix +:+ plain_indent_at prefix indent v.

(** A decoder that knows the texts of the documents of a list. *)
Definition table_json_parse (docs : list json) (data : string) : result json :=
  match List.find (fun v => String.eqb (plain_indent EmptyString "  " v) data)
          docs with
  | Some v => Ok v
  | None => Err (ErrOther "invalid character looking for beginning of value")
  end.

Definition ascii_lower (c : ascii) : ascii :=
  let n := nat_of_ascii c in
  if ((65 <=? n) && (n <=? 90))%nat then ascii_of_nat (n + 32) else c.

Fixpoint string_lower (s : string) : string :=
  match s with
  | EmptyString => EmptyString
  | String c s' => String (ascii_lower c) (string_lower s')
  end.

(** Comparison without the case of the ASCII letters. *)
Definition ascii_equalFold (a b : string) : bool :=
  String.eqb (string_lower a) (string_lower b).

Definition plain_UnmarshalTypeError (v : json) (f : option field) : error :=
  ErrOther ("json: cannot unmarshal value into Go "
            +:+ match f with
                | Some f => "struct field Config." +:+ field_name f
                | None => "value of type config.Config"
                end).

(** Path elements joined by a slash. *)
Definition slash_Join (elem : list string) : string := sep_by "/" elem.

(** March 24, 2019, 00:00:00 UTC. *)
Definition sample_now : Time := 1553385600 * Second.

(** Tokens named after the [exp] claim they carry; [t.broken] is not in
    the table. *)
Definition sample_tokens : gmap string (gmap string value) :=
  {[ "t.plus4" := {[ "exp" := VFloat64 (float64_of_pos 1553385604) ]};
     "t.plus6" := {[ "exp" := VFloat64 (float64_of_pos 1553385606) ]};
     "t.plus9" := {[ "exp" := VFloat64 (float64_of_pos 1553385609) ]};
     "t.plus11" := {[ "exp" := VFloat64 (float64_of_pos 1553385611) ]};
     "t.past" := {[ "exp" := VFloat64 (float64_of_pos 1553382000) ]};
     "t.zero" := {[ "exp" := VFloat64 (S754_zero false) ]};
     "t.noexp" := {[ "sub" := VString "alice" ]};
     "t.textexp" := {[ "exp" := VString "1553385606" ]} ]}.

Definition sample_parser : string -> result jwt_Token := table_parser sample_tokens.

(** A record with the two tokens given and nothing else. *)
Definition tokens_only (access refresh : string) : Config :=
  {| AccessToken := access; ClientID := EmptyString;
     ClientSecret := EmptyString; Insecure := false;
     Password := EmptyString; RefreshToken := refresh;
     Scopes := None; Token := EmptyString; TokenURL := EmptyString;
     URL := EmptyString; User := EmptyString |}.

(** A record with user and password next to two tokens. *)
Definition with_password (access refresh : string) : Config :=
  {| AccessToken := access; ClientID := EmptyString;
     ClientSecret := EmptyString; Insecure := false;
     Password := "secret"; RefreshToken := refresh;
     Scopes := None; Token := EmptyString; TokenURL := EmptyString;
     URL := EmptyString; User := "alice" |}.

(** A record as the login command saves it. *)
Definition sample_config : Config :=
  {| AccessToken := "t.plus6"; ClientID := "uhc-cli";
     ClientSecret := EmptyString; Insecure := true;
     Password := EmptyString; RefreshToken := "t.plus11";
     Scopes := Some ["openid"; "profile"]; Token := EmptyString;
     TokenURL := "https://sso.example.com/token";
     URL := "https://api.example.com"; User := EmptyString |}.

(** A system with a home directory and no files yet. *)
Definition sample_os : OS :=
  {| environ := {[ "HOME" := "/home/alice" ]};
     files := ∅;
     refuses := fun _ _ => None;
     short_write := fun _ => 0%nat |}.

(** ** The text of JSON documents (package encoding/json)

    The encoder and the decoder of encoding/json on the bytes of a
    document, after the documentation of the package (Go 1.22): strings are
    written as valid UTF-8, with the escapes of the encoder, and read back
    with every escape of JSON. *)

(** The value of a byte. *)
Definition byte (c : ascii) : N := N_of_ascii c.

Definition byte_in (lo hi : N) (c : ascii) : bool :=
  ((lo <=? byte c) && (byte c <=? hi))%N.

Definition is_byte (n : N) (c : ascii) : bool := (byte c =? n)%N.

(** A byte below [0x80] is a character of its own. *)
Definition is_ascii (c : ascii) : bool := (byte c <? 128)%N.

(** The sequences of two, three and four bytes that are the UTF-8 form of
    a character: the shortest form only, no surrogate, none above
    [U+10FFFF]. *)
Definition valid2 (a b : ascii) : bool :=
  byte_in 194 223 a && byte_in 128 191 b.

Definition valid3 (a b c : ascii) : bool :=
  ((is_byte 224 a && byte_in 160 191 b)
   || (byte_in 225 236 a && byte_in 128 191 b)
   || (is_byte 237 a && byte_in 128 159 b)
   || (byte_in 238 239 a && byte_in 128 191 b))
  && byte_in 128 191 c.

Definition valid4 (a b c d : ascii) : bool :=
  ((is_byte 240 a && byte_in 144 191 b)
   || (byte_in 241 243 a && byte_in 128 191 b)
   || (is_byte 244 a && byte_in 128 143 b))
  && byte_in 128 191 c && byte_in 128 191 d.

(** A string is valid UTF-8 when it is a sequence of such characters. *)
Fixpoint valid_utf8 (s : string) : bool :=
  match s with
  | EmptyString => true
  | String a s1 =>
      if is_ascii a then valid_utf8 s1
      else
        match s1 with
        | EmptyString => false
        | String b s2 =>
            if valid2 a b then valid_utf8 s2
            else
              match s2 with
              | EmptyString => false
              | String c s3 =>
                  if valid3 a b c then valid_utf8 s3
                  else
                    match s3 with
                    | EmptyString => false
                    | String d s4 =>
                        if valid4 a b c d then valid_utf8 s4 else false
                    end
              end
        end
  end.

(** The UTF-8 form of [U+FFFD], the replacement character. *)
Definition replacement : string :=
  String (ascii_of_N 239) (String (ascii_of_N 191)
    (String (ascii_of_N 189) EmptyString)).

Definition hex_digit (n : N) : ascii :=
  ascii_of_N (if (n <? 10)%N then 48 + n else 87 + n)%N.

(** A character below [0x80] in a JSON string, as the encoder writes it
    with the escape of HTML characters on. *)
Definition escape_ascii (c : ascii) : string :=
  let n := byte c in
  let short (x : string) := "\" +:+ x in
  if (n =? 34)%N then short dquote
  else if (n =? 92)%N then short "\"
  else if (n =? 8)%N then short "b"
  else if (n =? 12)%N then short "f"
  else if (n =? 10)%N then short "n"
  else if (n =? 13)%N then short "r"
  else if (n =? 9)%N then short "t"
  else if ((n <? 32) || (n =? 60) || (n =? 62) || (n =? 38))%N then
    "\" +:+ "u00"
    +:+ String (hex_digit (n / 16)%N)
          (String (hex_digit (n mod 16)%N) EmptyString)
  else String c EmptyString.

(** [U+2028] and [U+2029], which the encoder escapes. *)
Definition is_line_separator (a b c : ascii) : bool :=
  is_byte 226 a && is_byte 128 b && is_byte 168 c.
Definition is_paragraph_separator (a b c : ascii) : bool :=
  is_byte 226 a && is_byte 128 b && is_byte 169 c.

(** The content of a JSON string for a Go string: a byte that is not part
    of a valid character is written as the escape of [U+FFFD]. *)
Fixpoint escape (s : string) : string :=
  match s with
  | EmptyString => EmptyString
  | String a s1 =>
      if is_ascii a then escape_ascii a +:+ escape s1
      else
        let invalid := "\" +:+ "ufffd" +:+ escape s1 in
        match s1 with
        | EmptyString => invalid
        | String b s2 =>
            if valid2 a b then String a (String b (escape s2))
            else
              match s2 with
              | EmptyString => invalid
              | String c s3 =>
                  if valid3 a b c then
                    if is_line_separator a b c then "\" +:+ "u2028" +:+ escape s3
                    else if is_paragraph_separator a b c
                    then "\" +:+ "u2029" +:+ escape s3
                    else String a (String b (String c (escape s3)))
                  else
                    match s3 with
                    | EmptyString => invalid
                    | String d s4 =>
                        if valid4 a b c d then
                          String a (String b (String c (String d (escape s4))))
                        else invalid
                    end
              end
        end
  end.

Definition quote (s : string) : string := dquote +:+ escape s +:+ dquote.

(** The text of a document in the layout of [json.MarshalIndent]: every
    member and element on a line of its own, after the prefix and one
    indentation for each level; nothing before the first line. *)
Fixpoint indent_value (cur indent : string) (v : json) : string :=
  let inner := cur +:+ indent in
  match v with
  | JNull => "null"
  | JBool b => if b then "true" else "false"
  | JNumber literal => literal
  | JString s => quote s
  | JArray [] => "[]"
  | JArray l =>
      "[" +:+ newline +:+ inner
      +:+ sep_by ("," +:+ newline +:+ inner)
            (List.map (indent_value inner indent) l)
      +:+ newline +:+ cur +:+ "]"
  | JObject [] => "{}"
  | JObject ms =>
      "{" +:+ newline +:+ inner
      +:+ sep_by ("," +:+ newline +:+ inner)
            (List.map (fun kv => quote (fst kv) +:+ ": "
                                 +:+ indent_value inner indent (snd kv)) ms)
      +:+ newline +:+ cur +:+ "}"
  end.

Definition go_indent (prefix indent : string) (v : json) : string :=
  indent_value prefix indent v.

(** *** The decoder *)

Definition hex_value (c : ascii) : option N :=
  let n := byte c in
  if byte_in 48 57 c then Some (n - 48)%N
  else if byte_in 97 102 c then Some (n - 87)%N
  else if byte_in 65 70 c then Some (n - 55)%N
  else None.

Definition hex4 (a b c d : ascii) : option N :=
  match hex_value a, hex_value b, hex_value c, hex_value d with
  | Some x, Some y, Some z, Some w => Some (((x * 16 + y) * 16 + z) * 16 + w)%N
  | _, _, _, _ => None
  end.

(** The UTF-8 form of a character. *)
Definition encode_rune (r : N) : string :=
  let b (n : N) := ascii_of_N n in
  if (r <? 128)%N then String (b r) EmptyString
  else if (r <? 2048)%N then
    String (b (192 + r / 64)%N) (String (b (128 + r mod 64)%N) EmptyString)
  else if (r <? 65536)%N then
    String (b (224 + r / 4096)%N)
      (String (b (128 + (r / 64) mod 64)%N)
         (String (b (128 + r mod 64)%N) EmptyString))
  else
    String (b (240 + r / 262144)%N)
      (String (b (128 + (r / 4096) mod 64)%N)
         (String (b (128 + (r / 64) mod 64)%N)
            (String (b (128 + r mod 64)%N) EmptyString))).

Definition is_surrogate (r : N) : bool := ((55296 <=? r) && (r <=? 57343))%N.

(** The character of a pair of UTF-16 surrogates, when they are one. *)
Definition surrogate_pair (r1 r2 : N) : option N :=
  if ((55296 <=? r1) && (r1 <=? 56319) && (56320 <=? r2) && (r2 <=? 57343))%N
  then Some (65536 + (r1 - 55296) * 1024 + (r2 - 56320))%N
  else None.

Definition emit (bytes : string) (k : option (string * string))
  : option (string * string) :=
  match k with
  | Some (s, rest) => Some (bytes +:+ s, rest)
  | None => None
  end.

(** The content of a JSON string after its opening quote, up to the
    closing quote, and the text after it.  Escapes are replaced, invalid
    UTF-8 and lone surrogates become [U+FFFD], a control character ends
    the decoding with an error. *)
Fixpoint unquote (s : string) : option (string * string) :=
  match s with
  | EmptyString => None
  | String a s1 =>
      if is_ascii a then
        if is_byte 34 a then Some (EmptyString, s1)
        else if is_byte 92 a then
          match s1 with
          | EmptyString => None
          | String e s2 =>
              let lit (n : N) := emit (String (ascii_of_N n) EmptyString)
                                   (unquote s2) in
              if is_byte 34 e then lit 34%N
              else if is_byte 92 e then lit 92%N
              else if is_byte 47 e then lit 47%N
              else if is_byte 98 e then lit 8%N
              else if is_byte 102 e then lit 12%N
              else if is_byte 110 e then lit 10%N
              else if is_byte 114 e then lit 13%N
              else if is_byte 116 e then lit 9%N
              else if is_byte 117 e then
                match s2 with
                | String h1 (String h2 (String h3 (String h4 s6))) =>
                    match hex4 h1 h2 h3 h4 with
                    | None => None
                    | Some r =>
                        if is_surrogate r then
                          match s6 with
                          | String b1 (String b2 (String g1 (String g2
                              (String g3 (String g4 s12))))) =>
                              match
                                (if is_byte 92 b1 && is_byte 117 b2
                                 then hex4 g1 g2 g3 g4 else None)
                              with
                              | Some r' =>
                                  match surrogate_pair r r' with
                                  | Some p => emit (encode_rune p) (unquote s12)
                                  | None => emit replacement (unquote s6)
                                  end
                              | None => emit replacement (unquote s6)
                              end
                          | _ => emit replacement (unquote s6)
                          end
                        else emit (encode_rune r) (unquote s6)
                    end
                | _ => None
                end
              else None
          end
        else if (byte a <? 32)%N then None
        else emit (String a EmptyString) (unquote s1)
      else
        let invalid := emit replacement (unquote s1) in
        match s1 with
        | EmptyString => invalid
        | String b s2 =>
            if valid2 a b then emit (String a (String b EmptyString)) (unquote s2)
            else
              match s2 with
              | EmptyString => invalid
              | String c s3 =>
                  if valid3 a b c then
                    emit (String a (String b (String c EmptyString)))
                      (unquote s3)
                  else
                    match s3 with
                    | EmptyString => invalid
                    | String d s4 =>
                        if valid4 a b c d then
                          emit (String a (String b (String c
                                  (String d EmptyString)))) (unquote s4)
                        else invalid
                    end
              end
        end
  end.

(** Space, tab, line feed and carriage return. *)
Definition is_space (c : ascii) : bool :=
  is_byte 32 c || is_byte 9 c || is_byte 10 c || is_byte 13 c.

Fixpoint skip_space (s : string) : string :=
  match s with
  | String c s' => if is_space c then skip_space s' else s
  | EmptyString => s
  end.

(** The text without the prefix, when it starts with it. *)
Fixpoint strip_prefix (pre s : string) : option string :=
  match pre, s with
  | EmptyString, _ => Some s
  | String a pre', String b s' =>
      if Ascii.eqb a b then strip_prefix pre' s' else None
  | String _ _, EmptyString => None
  end.

Definition is_digit (c : ascii) : bool := byte_in 48 57 c.

(** The digits at the head of a text, and the text after them. *)
Fixpoint span_digits (s : string) : string * string :=
  match s with
  | String c s' =>
      if is_digit c then
        let '(ds, rest) := span_digits s' in (String c ds, rest)
      else (EmptyString, s)
  | EmptyString => (EmptyString, s)
  end.

(** A JSON number at the head of a text: its literal and the text after
    it. *)
Definition scan_number (s : string) : option (string * string) :=
  let '(sign, s1) :=
    match s with
    | String c s' => if is_byte 45 c then ("-", s') else (EmptyString, s)
    | EmptyString => (EmptyString, s)
    end in
  let '(int, s2) := span_digits s1 in
  let int_ok :=
    match int with
    | EmptyString => false
    | String c EmptyString => true
    | String c _ => negb (is_byte 48 c)
    end in
  if negb int_ok then None
  else
    let frac :=
      match s2 with
      | String c s' =>
          if is_byte 46 c then
            let '(ds, rest) := span_digits s' in
            match ds with
            | EmptyString => None
            | _ => Some ("." +:+ ds, rest)
            end
          else Some (EmptyString, s2)
      | EmptyString => Some (EmptyString, s2)
      end in
    match frac with
    | None => None
    | Some (fr, s3) =>
        let exp :=
          match s3 with
          | String c s' =>
              if is_byte 101 c || is_byte 69 c then
                let '(sg, s'') :=
                  match s' with
                  | String d t =>
                      if is_byte 43 d || is_byte 45 d
                      then (String d EmptyString, t) else (EmptyString, s')
                  | EmptyString => (EmptyString, s')
                  end in
                let '(ds, rest) := span_digits s'' in
                match ds with
                | EmptyString => None
                | _ => Some (String c sg +:+ ds, rest)
                end
              else Some (EmptyString, s3)
          | EmptyString => Some (EmptyString, s3)
          end in
        match exp with
        | None => None
        | Some (ex, s4) => Some (sign +:+ int +:+ fr +:+ ex, s4)
        end
    end.

(** A value at the head of a text, after spaces, and the text after it.
    The fuel bounds the number of values, members and elements. *)
Fixpoint parse_value (fuel : nat) (s : string) {struct fuel}
  : option (json * string) :=
  match fuel with
  | O => None
  | S fuel =>
      match skip_space s with
      | EmptyString => None
      | String c s1 =>
          if is_byte 34 c then
            match unquote s1 with
            | Some (str, rest) => Some (JString str, rest)
            | None => None
            end
          else if is_byte 123 c then
            match skip_space s1 with
            | String c' rest =>
                if is_byte 125 c' then Some (JObject [], rest)
                else
                  match parse_members fuel s1 with
                  | Some (ms, rest') => Some (JObject ms, rest')
                  | None => None
                  end
            | EmptyString => None
            end
          else if is_byte 91 c then
            match skip_space s1 with
            | String c' rest =>
                if is_byte 93 c' then Some (JArray [], rest)
                else
                  match parse_elements fuel s1 with
                  | Some (vs, rest') => Some (JArray vs, rest')
                  | None => None
                  end
            | EmptyString => None
            end
          else
            match strip_prefix "true" (String c s1) with
            | Some rest => Some (JBool true, rest)
            | None =>
            match strip_prefix "false" (String c s1) with
            | Some rest => Some (JBool false, rest)
            | None =>
            match strip_prefix "null" (String c s1) with
            | Some rest => Some (JNull, rest)
            | None =>
            match scan_number (String c s1) with
            | Some (literal, rest) => Some (JNumber literal, rest)
            | None => None
            end end end end
      end
  end
with parse_members (fuel : nat) (s : string) {struct fuel}
  : option (list (string * json) * string) :=
  match fuel with
  | O => None
  | S fuel =>
      match skip_space s with
      | String c s1 =>
          if is_byte 34 c then
            match unquote s1 with
            | Some (key, r1) =>
                match skip_space r1 with
                | String c1 r2 =>
                    if is_byte 58 c1 then
                      match parse_value fuel r2 with
                      | Some (v, r3) =>
                          match skip_space r3 with
                          | String c3 r4 =>
                              if is_byte 44 c3 then
                                match parse_members fuel r4 with
                                | Some (ms, r5) => Some ((key, v) :: ms, r5)
                                | None => None
                                end
                              else if is_byte 125 c3 then Some ([(key, v)], r4)
                              else None
                          | EmptyString => None
                          end
                      | None => None
                      end
                    else None
                | EmptyString => None
                end
            | None => None
            end
          else None
      | EmptyString => None
      end
  end
with parse_elements (fuel : nat) (s : string) {struct fuel}
  : option (list json * string) :=
  match fuel with
  | O => None
  | S fuel =>
      match parse_value fuel s with
      | Some (v, r1) =>
          match skip_space r1 with
          | String c r2 =>
              if is_byte 44 c then
                match parse_elements fuel r2 with
                | Some (vs, r3) => Some (v :: vs, r3)
                | None => None
                end
              else if is_byte 93 c then Some ([v], r2)
              else None
          | EmptyString => None
          end
      | None => None
      end
  end.

(** The document of a JSON text: one value, and spaces only around it. *)
Definition go_parse (data : string) : result json :=
  match parse_value (S (String.length data)) data with
  | Some (v, rest) =>
      match skip_space rest with
      | EmptyString => Ok v
      | String _ _ =>
          Err (ErrOther "invalid character after top-level value")
      end
  | None => Err (ErrOther "invalid character or unexpected end of JSON input")
  end.

(** The strings of a list, quoted, on lines of their own. *)
Definition element_lines (inner : string) (l : list string) : string :=
  sep_by ("," +:+ newline +:+ inner) (List.map quote l).

(** The members of an object, on lines of their own at the first level. *)
Definition member_line (kv : string * json) : string :=
  quote (fst kv) +:+ ": " +:+ indent_value "  " "  " (snd kv).

Definition member_lines (ms : list (string * json)) : string :=
  sep_by ("," +:+ newline +:+ "  ") (List.map member_line ms).

(** The values that [Config_json] gives to the members of its object,
    with strings of valid UTF-8. *)
Definition plain_value (v : json) : Prop :=
  (exists s : string, v = JString s /\ valid_utf8 s = true) \/
  v = JBool true \/
  (exists (x : string) (l : list string),
     v = JArray (JString <$> x :: l) /\
     Forall (fun s => valid_utf8 s = true) (x :: l)).

Definition plain_member (kv : string * json) : Prop :=
  valid_utf8 (fst kv) = true /\ plain_value (snd kv).

(** Every string of the configuration is valid UTF-8. *)
Definition valid_utf8_Config (cfg : Config) : Prop :=
  (forall f : field, valid_utf8 (get_string f cfg) = true) /\
  Forall (fun s => valid_utf8 s = true) (default [] (Scopes cfg)).

(** A string with the byte [0xff], which is not UTF-8. *)
Definition not_utf8 : string :=
  "a" +:+ String (ascii_of_N 255) EmptyString +:+ "b".

(** A record whose password is not UTF-8, and a record whose [Scopes]
    is a slice without elements that is not nil. *)
Definition sample_config_not_utf8 : Config :=
  {| AccessToken := EmptyString; ClientID := EmptyString;
     ClientSecret := EmptyString; Insecure := false;
     Password := not_utf8; RefreshToken := EmptyString;
     Scopes := None; Token := EmptyString; TokenURL := EmptyString;
     URL := EmptyString; User := "alice" |}.

Definition sample_config_no_scopes : Config :=
  {| AccessToken := EmptyString; ClientID := EmptyString;
     ClientSecret := EmptyString; Insecure := false;
     Password := EmptyString; RefreshToken := EmptyString;
     Scopes := Some []; Token := EmptyString; TokenURL := EmptyString;
     URL := EmptyString; User := "alice" |}.

(** A record with characters that the encoder escapes or writes on
    several bytes. *)
Definition sample_config_escapes : Config :=
  {| AccessToken := "t.plus6"; ClientID := EmptyString;
     ClientSecret := EmptyString; Insecure := true;
     Password := "p<a>s&s" +:+ dquote +:+ newline +:+ "w"
                 +:+ String (ascii_of_N 195) (String (ascii_of_N 169)
                       EmptyString);
     RefreshToken := EmptyString;
     Scopes := Some ["openid"; EmptyString]; Token := EmptyString;
     TokenURL := EmptyString; URL := "https://api.example.com";
     User := "alice" |}.

(** ** Vocabulary of the properties *)

(** Neither pair of static credentials is complete: [Armed] reaches the
    tokens. *)
Definition no_static_credentials (cfg : Config) : Prop :=
  User cfg = EmptyString /\ Password cfg = EmptyString /\
  ClientID cfg = EmptyString /\ ClientSecret cfg = EmptyString.

(** The only credential of the record is the access token [text]. *)
Definition only_access_token (cfg : Config) (text : string) : Prop :=
  no_static_credentials cfg /\ text <> EmptyString /\
  AccessToken cfg = text /\ RefreshToken cfg = EmptyString.

(** The only credential of the record is the refresh token [text]. *)
Definition only_refresh_token (cfg : Config) (text : string) : Prop :=
  no_static_credentials cfg /\ text <> EmptyString /\
  AccessToken cfg = EmptyString /\ RefreshToken cfg = text.

(** The token [text] decodes to the claims [m]. *)
Definition decodes_to (text : string) (m : gmap string value) : Prop :=
  ParseUnverified text = Ok {| Token_Claims := MapClaims m |}.

(** The float64 [x], read as seconds since the epoch, is exactly the
    instant [t]: a finite [x] is [(-1)^s * m * 2^e]. *)
Definition float64_is_instant (x : float64) (t : Time) : Prop :=
  match x with
  | S754_zero _ => t = 0
  | S754_finite s m e =>
      let n := if s then Z.neg m else Z.pos m in
      if 0 <=? e then n * 2 ^ e * Second = t
      else n * Second = t * 2 ^ (- e)
  | S754_infinity _ => False
  | S754_nan => False
  end.

(** The integer part of the float64 [exp], which [int64(exp)] keeps, is
    [q], a second that [time.Unix] represents without wrapping. *)
Definition whole_seconds (exp : float64) (q : Z) : Prop :=
  float64_trunc exp = Some q /\
  MinInt64 <= q <= MaxInt64 - unixToInternal.

(** Tokens that expire exactly 5 and 10 seconds after [sample_now]. *)
Definition boundary_tokens : gmap string (gmap string value) :=
  {[ "t.plus5" := {[ "exp" := VFloat64 (float64_of_pos 1553385605) ]};
     "t.plus10" := {[ "exp" := VFloat64 (float64_of_pos 1553385610) ]} ]}.

Definition boundary_parser : string -> result jwt_Token :=
  table_parser boundary_tokens.

(** A system whose [HOME] names a regular file: nothing can exist below
    it, and every operation on a path below it fails with [ENOTDIR]. *)
Definition sample_os_home_is_file : OS :=
  {| environ := {[ "HOME" := "/etc/passwd" ]};
     files := {[ "/etc/passwd" := "root:x:0:0:root:/root:/bin/sh" ]};
     refuses := fun op name =>
       if String.eqb name "/etc/passwd/.uhc.json"
       then Some (ErrOther "/etc/passwd/.uhc.json: not a directory")
       else None;
     short_write := fun _ => 0%nat |}.

Definition missing_exp : error :=
  Errorf "token doesn't contain the 'exp' claim".

Definition invalid_exp_type (v : value) : error :=
  Errorf ("expected floating point 'exp' but got " +:+ type_name v).

(** One of the two pairs of static credentials is complete. *)
Definition has_static_credentials (cfg : Config) : Prop :=
  (User cfg <> EmptyString /\ Password cfg <> EmptyString) \/
  (ClientID cfg <> EmptyString /\ ClientSecret cfg <> EmptyString).

(** The token is there, evaluates without error, and never expires or has
    more than the margin left. *)
Definition token_fresh (text : string) (now : Time) (margin : Duration)
  : Prop :=
  text <> EmptyString /\
  exists (expires : bool) (left_ : Duration),
    tokenExpiry text now = (expires, left_, None) /\
    (expires = false \/ margin < left_).

(** There is no token, or it evaluates without error and expires with at
    most the margin left. *)
Definition token_stale (text : string) (now : Time) (margin : Duration)
  : Prop :=
  text = EmptyString \/
  exists left_ : Duration,
    tokenExpiry text now = (true, left_, None) /\ left_ <= margin.

(** The token is there and its evaluation fails with the error. *)
Definition token_fails (text : string) (now : Time) (err : error) : Prop :=
  text <> EmptyString /\
  exists (expires : bool) (left_ : Duration),
    tokenExpiry text now = (expires, left_, Some err).

(** One token block of [Armed], for a margin: [Some] of the results that
    the block returns, or [None] when it falls through. *)
Definition token_block (text : string) (now : Time) (margin : Duration)
  : option (bool * option error) :=
  if nonempty text then
    match tokenExpiry text now with
    | (_, _, Some err) => Some (false, Some err)
    | (expires, left_, None) =>
        if negb expires || (margin <? left_) then Some (true, None)
        else None
    end
  else None.

(** Two records with the same six fields that [Armed] reads. *)
Definition same_credentials (a b : Config) : Prop :=
  User a = User b /\ Password a = Password b /\
  ClientID a = ClientID b /\ ClientSecret a = ClientSecret b /\
  AccessToken a = AccessToken b /\ RefreshToken a = RefreshToken b.

(** A record that differs from [sample_config] in every field that
    [Armed] does not read. *)
Definition sample_config_elsewhere : Config :=
  {| AccessToken := "t.plus6"; ClientID := "uhc-cli";
     ClientSecret := EmptyString; Insecure := false;
     Password := EmptyString; RefreshToken := "t.plus11";
     Scopes := None; Token := "t.broken";
     TokenURL := EmptyString;
     URL := "https://api.stage.example.com"; User := EmptyString |}.

(** The error of [Location] when [HOME] is empty or not set. *)
Definition no_home : error :=
  Errorf "can't find home directory, HOME environment variable is empty".

(** A system without a home directory. *)
Definition sample_os_homeless : OS :=
  {| environ := ∅; files := ∅; refuses := fun _ _ => None;
     short_write := fun _ => 0%nat |}.

(** Files of the sample system: a configuration file that is not JSON, and
    a file of another program. *)
Definition sample_files : gmap string string :=
  {[ "/home/alice/.uhc.json" := "not json";
     "/home/alice/.profile" := "export EDITOR=vi" ]}.

Definition sample_os_garbled : OS :=
  {| environ := {[ "HOME" := "/home/alice" ]};
     files := sample_files;
     refuses := fun _ _ => None;
     short_write := fun _ => 0%nat |}.

(** The same files in a home directory that cannot be searched: every
    [stat] in it is refused. *)
Definition sample_os_no_stat : OS :=
  {| environ := {[ "HOME" := "/home/alice" ]};
     files := sample_files;
     refuses := fun op _ =>
       match op with
       | OpStat => Some (ErrOther "stat /home/alice/.uhc.json: permission denied")
       | _ => None
       end;
     short_write := fun _ => 0%nat |}.

(** The system of [sample_os_garbled] with more variables and files, and
    with the removal of files refused. *)
Definition sample_os_busy : OS :=
  {| environ := {[ "HOME" := "/home/alice"; "LANG" := "C" ]};
     files := <[ "/tmp/scratch" := "x" ]> sample_files;
     refuses := fun op _ =>
       match op with
       | OpRemove => Some (ErrOther "operation not permitted")
       | _ => None
       end;
     short_write := fun _ => 0%nat |}.

(** ** Properties of [Armed] and [tokenExpiry] *)

Lemma nonempty_true (s : string) : s <> EmptyString -> nonempty s = true.
Proof. destruct s; [congruence | reflexivity]. Qed.

Lemma nonempty_false (s : string) : s = EmptyString -> nonempty s = false.
Proof. intros ->. reflexivity. Qed.

(** Without static credentials [Armed] is decided by the two token
    blocks alone. *)
Lemma Armed_no_static (cfg : Config) (now : Time) :
  nonempty (User cfg) && nonempty (Password cfg) = false ->
  nonempty (ClientID cfg) && nonempty (ClientSecret cfg) = false ->
  Armed cfg now =
    match
      (if nonempty (AccessToken cfg) then
         match tokenExpiry (AccessToken cfg) now with
         | (_, _, Some err) => Some (false, Some err)
         | (expires, left_, None) =>
             if negb expires || (5 * Second <? left_) then Some (true, None)
             else None
         end
       else None)
    with
    | Some results => results
    | None =>
        if nonempty (RefreshToken cfg) then
          match tokenExpiry (RefreshToken cfg) now with
          | (_, _, Some err) => (false, Some err)
          | (expires, left_, None) =>
              (negb expires || (10 * Second <? left_), None)
          end
        else (false, None)
    end.
Proof.
  intros Hu Hc. unfold Armed. rewrite Hu, Hc.
  destruct (nonempty (AccessToken cfg)).
  - destruct (tokenExpiry (AccessToken cfg) now) as [[ex l] [e|]]; [reflexivity|].
    destruct (negb ex || (5 * Second <? l)); [reflexivity|].
    destruct (nonempty (RefreshToken cfg)); [|reflexivity].
    destruct (tokenExpiry (RefreshToken cfg) now) as [[ex' l'] [e'|]]; [reflexivity|].
    destruct (negb ex' || (10 * Second <? l')); reflexivity.
  - destruct (nonempty (RefreshToken cfg)); [|reflexivity].
    destruct (tokenExpiry (RefreshToken cfg) now) as [[ex' l'] [e'|]]; [reflexivity|].
    destruct (negb ex' || (10 * Second <? l')); reflexivity.
Qed.

Lemma no_static_credentials_tests (cfg : Config) :
  no_static_credentials cfg ->
  nonempty (User cfg) && nonempty (Password cfg) = false /\
  nonempty (ClientID cfg) && nonempty (ClientSecret cfg) = false.
Proof. intros (-> & _ & -> & _). split; reflexivity. Qed.

(** C1: a record with user and password, or with client id and client
    secret when user or password is empty, is armed without error, whatever
    the time, the tokens and the outcome of decoding them. *)
Theorem Armed_static_credentials (cfg : Config) (now : Time) :
  (User cfg <> EmptyString /\ Password cfg <> EmptyString) \/
  (ClientID cfg <> EmptyString /\ ClientSecret cfg <> EmptyString /\
   (User cfg = EmptyString \/ Password cfg = EmptyString)) ->
  Armed cfg now = (true, None).
Proof.
  intros [[Hu Hp] | (Hi & Hs & _)]; unfold Armed.
  - rewrite (nonempty_true _ Hu), (nonempty_true _ Hp). reflexivity.
  - rewrite (nonempty_true _ Hi), (nonempty_true _ Hs).
    destruct (nonempty (User cfg) && nonempty (Password cfg)); reflexivity.
Qed.

(** C3, as amended: when neither pair of static credentials is complete
    and the evaluation of a non-empty access token fails, [Armed] returns
    that error with armed false, whatever the refresh token is. *)
Theorem Armed_access_token_error (cfg : Config) (now : Time)
  (expires : bool) (left_ : Duration) (err : error) :
  nonempty (User cfg) && nonempty (Password cfg) = false ->
  nonempty (ClientID cfg) && nonempty (ClientSecret cfg) = false ->
  AccessToken cfg <> EmptyString ->
  tokenExpiry (AccessToken cfg) now = (expires, left_, Some err) ->
  Armed cfg now = (false, Some err).
Proof.
  intros Hu Hc Ha He. rewrite (Armed_no_static _ _ Hu Hc).
  rewrite (nonempty_true _ Ha), He. reflexivity.
Qed.

(** C4: with no static credentials, an access token that expires with at
    most 5 seconds left (or in the past) does not end the decision: a refresh
    token with more than 10 seconds left, or that never expires, arms the
    record. *)
Theorem Armed_falls_through_to_refresh_token (cfg : Config) (now : Time)
  (left_a : Duration) (expires_r : bool) (left_r : Duration) :
  no_static_credentials cfg ->
  AccessToken cfg <> EmptyString ->
  RefreshToken cfg <> EmptyString ->
  tokenExpiry (AccessToken cfg) now = (true, left_a, None) ->
  left_a <= 5 * Second ->
  tokenExpiry (RefreshToken cfg) now = (expires_r, left_r, None) ->
  expires_r = false \/ 10 * Second < left_r ->
  Armed cfg now = (true, None).
Proof.
  intros Hs Ha Hr Ea Hla Er Hlr.
  destruct (no_static_credentials_tests _ Hs) as [Hu Hc].
  rewrite (Armed_no_static _ _ Hu Hc).
  rewrite (nonempty_true _ Ha), Ea, (nonempty_true _ Hr), Er.
  replace (5 * Second <? left_a) with false by (symmetry; apply Z.ltb_ge; lia).
  cbn [negb orb]. f_equal.
  destruct Hlr as [-> | Hlt]; [reflexivity|].
  apply Z.ltb_lt in Hlt. rewrite Hlt. apply orb_true_r.
Qed.

(** The error of [tokenExpiry] comes with the zero values of the other
    results. *)
Lemma tokenExpiry_error (text : string) (now : Time)
  (expires : bool) (left_ : Duration) (err : error) :
  tokenExpiry text now = (expires, left_, Some err) ->
  expires = false /\ left_ = 0.
Proof.
  unfold tokenExpiry.
  destruct (ParseUnverified text) as [[[m|ty]]|e]; cbn [Token_Claims];
    try (intros [= <- <- _]; tauto).
  destruct (m !! "exp") as [v|]; [|intros [= <- <- _]; tauto].
  destruct v as [| b | x | s | l | l]; try (intros [= <- <- _]; tauto).
  destruct (float64_is_zero x); intros [= ]; tauto.
Qed.

(** C10: [Armed] never returns armed true together with an error, and a
    record with every field empty is not armed, without error. *)
Theorem Armed_error_implies_not_armed (cfg : Config) (now : Time) :
  (forall err : error, Armed cfg now <> (true, Some err)) /\
  (forall err : error, snd (Armed cfg now) = Some err ->
                       fst (Armed cfg now) = false) /\
  Armed new_Config now = (false, None).
Proof.
  assert (H : forall err, snd (Armed cfg now) = Some err ->
                          fst (Armed cfg now) = false).
  { intros err. unfold Armed.
    destruct (nonempty (User cfg) && nonempty (Password cfg)); [discriminate|].
    destruct (nonempty (ClientID cfg) && nonempty (ClientSecret cfg));
      [discriminate|].
    destruct (nonempty (AccessToken cfg)).
    - destruct (tokenExpiry (AccessToken cfg) now) as [[ex l] [e|]];
        [reflexivity|].
      destruct (negb ex || (5 * Second <? l)); [discriminate|].
      destruct (nonempty (RefreshToken cfg)); [|discriminate].
      destruct (tokenExpiry (RefreshToken cfg) now) as [[ex' l'] [e'|]];
        [reflexivity|].
      destruct (negb ex' || (10 * Second <? l')); discriminate.
    - destruct (nonempty (RefreshToken cfg)); [|discriminate].
      destruct (tokenExpiry (RefreshToken cfg) now) as [[ex' l'] [e'|]];
        [reflexivity|].
      destruct (negb ex' || (10 * Second <? l')); discriminate. }
  split; [|split].
  - intros err Heq. specialize (H err). rewrite Heq in H.
    specialize (H eq_refl). discriminate.
  - exact H.
  - reflexivity.
Qed.

(** *** Expiry of a token whose [exp] is a given instant *)

Lemma wrap64_small (z : Z) : MinInt64 <= z <= MaxInt64 -> wrap64 z = z.
Proof.
  unfold wrap64, MinInt64, MaxInt64. intros H.
  rewrite Z.mod_small; lia.
Qed.

Lemma in_int64_true (z : Z) : MinInt64 <= z <= MaxInt64 -> in_int64 z = true.
Proof.
  intros [H1 H2]. unfold in_int64.
  apply andb_true_intro. split; apply Z.leb_le; assumption.
Qed.

(** A token whose [exp] is zero never expires. *)
Lemma tokenExpiry_zero (text : string) (m : gmap string value)
  (x : float64) (now : Time) :
  decodes_to text m ->
  m !! "exp" = Some (VFloat64 x) ->
  float64_is_zero x = true ->
  tokenExpiry text now = (false, 0, None).
Proof.
  intros Hdec Hexp Hz. unfold tokenExpiry.
  rewrite Hdec. cbn [Token_Claims]. rewrite Hexp, Hz. reflexivity.
Qed.

(** Saturation keeps the comparison of what is left with a margin. *)
Lemma Sub_margin (t u : Time) (margin : Duration) :
  MinInt64 <= margin < MaxInt64 ->
  (margin <? Sub t u) = (margin <? t - u).
Proof.
  intros [H1 H2]. unfold Sub, minDuration, maxDuration.
  destruct (Z.ltb_spec (t - u) MinInt64);
    [|destruct (Z.ltb_spec MaxInt64 (t - u))];
    destruct (Z.ltb_spec margin (t - u)); try lia;
    first [ apply Z.ltb_lt | apply Z.ltb_ge ]; lia.
Qed.

(** A token whose [exp] is not zero expires at the whole second of
    [exp]. *)
Lemma tokenExpiry_whole_seconds (text : string) (m : gmap string value)
  (exp : float64) (q : Z) (now : Time) :
  decodes_to text m ->
  m !! "exp" = Some (VFloat64 exp) ->
  float64_is_zero exp = false ->
  whole_seconds exp q ->
  tokenExpiry text now = (true, Sub (q * Second) now, None).
Proof.
  intros Hdec Hexp Hz [Hq Hr].
  assert (HM : MaxInt64 = 9223372036854775807) by reflexivity.
  assert (Hm : MinInt64 = -9223372036854775808) by reflexivity.
  assert (HU : unixToInternal = 62135596800) by reflexivity.
  unfold tokenExpiry. rewrite Hdec. cbn [Token_Claims]. rewrite Hexp, Hz.
  unfold int64_of_float64. rewrite Hq.
  rewrite in_int64_true by lia.
  unfold time_Unix. rewrite wrap64_small by lia.
  do 3 f_equal. lia.
Qed.

(** The Unix second of an instant is the whole second at or before it. *)
Lemma unix_second (t : Time) : t - Second < t / Second * Second <= t.
Proof.
  assert (HS : Second = 1000000000) by reflexivity.
  pose proof (Z.mul_div_le t Second ltac:(lia)).
  pose proof (Z.mul_succ_div_gt t Second ltac:(lia)).
  lia.
Qed.

(** [Armed] on a record whose only credential is one token that decodes
    to an [exp] with the whole second [q], for the margin of that token. *)
Lemma Armed_only_token_threshold (cfg : Config) (text : string)
  (m : gmap string value) (exp : float64) (q : Z) (now : Time)
  (margin : Duration) :
  (only_access_token cfg text /\ margin = 5 * Second) \/
  (only_refresh_token cfg text /\ margin = 10 * Second) ->
  decodes_to text m ->
  m !! "exp" = Some (VFloat64 exp) ->
  whole_seconds exp q ->
  Armed cfg now =
    (float64_is_zero exp || (margin <? q * Second - now), None).
Proof.
  intros Hcfg Hdec Hexp Hq.
  assert (HS : Second = 1000000000) by reflexivity.
  assert (HM : MaxInt64 = 9223372036854775807) by reflexivity.
  assert (Hm : MinInt64 = -9223372036854775808) by reflexivity.
  assert (HE : tokenExpiry text now =
               if float64_is_zero exp then (false, 0, None)
               else (true, Sub (q * Second) now, None)).
  { destruct (float64_is_zero exp) eqn:Hz.
    - apply (tokenExpiry_zero text m exp now Hdec Hexp Hz).
    - apply (tokenExpiry_whole_seconds text m exp q now Hdec Hexp Hz Hq). }
  destruct Hcfg as [[(Hs & Ht & Ha & Hr) ->] | [(Hs & Ht & Ha & Hr) ->]];
    destruct (no_static_credentials_tests _ Hs) as [Hu Hc];
    rewrite (Armed_no_static _ _ Hu Hc), Ha, Hr, (nonempty_true _ Ht), HE;
    cbn [nonempty];
    (destruct (float64_is_zero exp); [reflexivity|]);
    cbn [negb orb]; rewrite Sub_margin by lia;
    destruct (_ <? _); reflexivity.
Qed.

(** C2, as amended: for a record whose only credential is an access token
    with the whole second [q] in its [exp] claim, and for every time
    [now], the record is armed exactly when [exp] is zero or the second
    [q] is more than 5 seconds after [now], and it is not armed, without
    error, exactly when [exp] is not zero and at most 5 seconds are left.
    So it is armed when [q] is the Unix second of [now] plus 6 seconds, and
    it is not armed when [q] is the Unix second of [now] plus 4 seconds and
    [exp] is not zero. *)
Theorem Armed_access_token_threshold (cfg : Config) (text : string)
  (m : gmap string value) (exp : float64) (q : Z) (now : Time) :
  only_access_token cfg text ->
  decodes_to text m ->
  m !! "exp" = Some (VFloat64 exp) ->
  whole_seconds exp q ->
  (Armed cfg now = (true, None) <->
   float64_is_zero exp = true \/ 5 * Second < q * Second - now) /\
  (Armed cfg now = (false, None) <->
   float64_is_zero exp = false /\ q * Second - now <= 5 * Second) /\
  (q = (now + 6 * Second) / Second -> Armed cfg now = (true, None)) /\
  (q = (now + 4 * Second) / Second -> float64_is_zero exp = false ->
   Armed cfg now = (false, None)).
Proof.
  intros Hcfg Hdec Hexp Hq.
  rewrite (Armed_only_token_threshold cfg text m exp q now (5 * Second)
             (or_introl (conj Hcfg eq_refl)) Hdec Hexp Hq).
  assert (HS : Second = 1000000000) by reflexivity.
  pose proof (unix_second (now + 6 * Second)) as H6.
  pose proof (unix_second (now + 4 * Second)) as H4.
  clear json_indent json_parse equalFold UnmarshalTypeError filepath_Join.
  destruct (float64_is_zero exp);
    destruct (Z.ltb_spec (5 * Second) (q * Second - now)); cbn [orb];
    repeat split; intros; subst; try tauto; try congruence;
    try (f_equal; lia); try (exfalso; lia);
    try (destruct H1; [congruence | lia]); try (destruct H0; congruence).
Qed.

(** C5, as amended: for a record whose only credential is a refresh token
    with the whole second [q] in its [exp] claim, and for every time
    [now], the record is armed exactly when [exp] is zero or the second
    [q] is more than 10 seconds after [now], and it is not armed, without
    error, exactly when [exp] is not zero and at most 10 seconds are left.
    So it is armed when [q] is the Unix second of [now] plus 11 seconds,
    and it is not armed when [q] is the Unix second of [now] plus 9 seconds
    and [exp] is not zero. *)
Theorem Armed_refresh_token_threshold (cfg : Config) (text : string)
  (m : gmap string value) (exp : float64) (q : Z) (now : Time) :
  only_refresh_token cfg text ->
  decodes_to text m ->
  m !! "exp" = Some (VFloat64 exp) ->
  whole_seconds exp q ->
  (Armed cfg now = (true, None) <->
   float64_is_zero exp = true \/ 10 * Second < q * Second - now) /\
  (Armed cfg now = (false, None) <->
   float64_is_zero exp = false /\ q * Second - now <= 10 * Second) /\
  (q = (now + 11 * Second) / Second -> Armed cfg now = (true, None)) /\
  (q = (now + 9 * Second) / Second -> float64_is_zero exp = false ->
   Armed cfg now = (false, None)).
Proof.
  intros Hcfg Hdec Hexp Hq.
  rewrite (Armed_only_token_threshold cfg text m exp q now (10 * Second)
             (or_intror (conj Hcfg eq_refl)) Hdec Hexp Hq).
  assert (HS : Second = 1000000000) by reflexivity.
  pose proof (unix_second (now + 11 * Second)) as H11.
  pose proof (unix_second (now + 9 * Second)) as H9.
  clear json_indent json_parse equalFold UnmarshalTypeError filepath_Join.
  destruct (float64_is_zero exp);
    destruct (Z.ltb_spec (10 * Second) (q * Second - now)); cbn [orb];
    repeat split; intros; subst; try tauto; try congruence;
    try (f_equal; lia); try (exfalso; lia);
    try (destruct H1; [congruence | lia]); try (destruct H0; congruence).
Qed.

(** [Armed] on a record whose only credential is one token, of either
    kind, that never expires or that fails to evaluate. *)
Lemma Armed_only_token (cfg : Config) (text : string) (now : Time) :
  only_access_token cfg text \/ only_refresh_token cfg text ->
  (tokenExpiry text now = (false, 0, None) -> Armed cfg now = (true, None)) /\
  (forall err : error,
     tokenExpiry text now = (false, 0, Some err) ->
     Armed cfg now = (false, Some err)).
Proof.
  intros [(Hs & Ht & Ha & Hr) | (Hs & Ht & Ha & Hr)];
    destruct (no_static_credentials_tests _ Hs) as [Hu Hc];
    rewrite (Armed_no_static _ _ Hu Hc), Ha, Hr, (nonempty_true _ Ht);
    cbn [nonempty]; split; intros; rewrite H; reflexivity.
Qed.

(** C6: a token whose [exp] claim is the number zero evaluates to
    [expires = false] with nothing left, and a record holding only such a
    token, as access or as refresh token, is armed without error, whatever
    the time. *)
Theorem tokenExpiry_zero_exp_never_expires (text : string)
  (m : gmap string value) (sign : bool) (now : Time) :
  decodes_to text m ->
  m !! "exp" = Some (VFloat64 (S754_zero sign)) ->
  tokenExpiry text now = (false, 0, None) /\
  (forall cfg : Config,
     only_access_token cfg text \/ only_refresh_token cfg text ->
     Armed cfg now = (true, None)).
Proof.
  intros Hdec Hexp.
  assert (Hz : tokenExpiry text now = (false, 0, None)).
  { apply (tokenExpiry_zero text m (S754_zero sign)); try assumption.
    destruct sign; reflexivity. }
  split; [exact Hz|].
  intros cfg Hcfg. apply (Armed_only_token cfg text now Hcfg). exact Hz.
Qed.

(** C7: a token whose claims lack [exp] fails to evaluate with the error
    "token doesn't contain the 'exp' claim", and [Armed] returns that error,
    not a plain false, for a record whose only credential is the token; an
    [exp] that is not a number fails with another error, on its type. *)
Theorem tokenExpiry_exp_claim_errors (text : string)
  (m : gmap string value) (now : Time) :
  decodes_to text m ->
  (m !! "exp" = None ->
   Error missing_exp = "token doesn't contain the 'exp' claim" /\
   tokenExpiry text now = (false, 0, Some missing_exp) /\
   (forall cfg : Config,
      only_access_token cfg text \/ only_refresh_token cfg text ->
      Armed cfg now = (false, Some missing_exp))) /\
  (forall v : value,
     m !! "exp" = Some v ->
     (forall x : float64, v <> VFloat64 x) ->
     invalid_exp_type v <> missing_exp /\
     tokenExpiry text now = (false, 0, Some (invalid_exp_type v)) /\
     (forall cfg : Config,
        only_access_token cfg text \/ only_refresh_token cfg text ->
        Armed cfg now = (false, Some (invalid_exp_type v)))).
Proof.
  intros Hdec. split.
  - intros Hexp.
    assert (He : tokenExpiry text now = (false, 0, Some missing_exp)).
    { unfold tokenExpiry. rewrite Hdec. cbn [Token_Claims]. rewrite Hexp.
      reflexivity. }
    split; [reflexivity|]. split; [exact He|].
    intros cfg Hcfg. apply (Armed_only_token cfg text now Hcfg). exact He.
  - intros v Hexp Hv.
    assert (He : tokenExpiry text now = (false, 0, Some (invalid_exp_type v))).
    { unfold tokenExpiry. rewrite Hdec. cbn [Token_Claims]. rewrite Hexp.
      destruct v as [| b | x | s | l | l]; try reflexivity.
      exfalso. apply (Hv x). reflexivity. }
    split; [|split; [exact He|]].
    + unfold invalid_exp_type, missing_exp, Errorf. intros [= Habs].
    + intros cfg Hcfg. apply (Armed_only_token cfg text now Hcfg). exact He.
Qed.

(** ** Properties of the configuration file *)

(** Every tag is found again by the decoder, as the exact match. *)
Lemma find_field_name (f : field) : find_field (field_name f) = Some f.
Proof. destruct f; reflexivity. Qed.

Lemma decode_members_app (a b : list (string * json)) (c : Config)
  (err : option error) :
  decode_members (a ++ b) c err =
  let '(c', err') := decode_members a c err in decode_members b c' err'.
Proof.
  revert c err. induction a as [| [key v] a IH]; intros c err; cbn.
  - reflexivity.
  - destruct (find_field key) as [f|]; [|apply IH].
    destruct (decode_field f v c) as [c' e]. apply IH.
Qed.

(** A string member that [omitempty] leaves out is a field that stays
    empty: decoding what was written is the assignment of the field. *)
Lemma decode_omitempty_string (f : field) (s : string) (c : Config)
  (err : option error) :
  is_string_field f = true ->
  get_string f c = EmptyString ->
  decode_members (omitempty_string f s) c err = (set_string f s c, err).
Proof.
  intros Hf Hc. unfold omitempty_string.
  destruct s as [| a s]; cbn [nonempty decode_members].
  - f_equal. rewrite <- Hc. destruct f, c; try discriminate; reflexivity.
  - rewrite find_field_name.
    assert (Hd : decode_field f (JString (String a s)) c
                 = (set_string f (String a s) c, None))
      by (destruct f; try discriminate; reflexivity).
    rewrite Hd. destruct err; reflexivity.
Qed.

Lemma decode_omitempty_bool (b : bool) (c : Config) (err : option error) :
  Insecure c = false ->
  decode_members (omitempty_bool FInsecure b) c err = (set_Insecure b c, err).
Proof.
  intros Hc. unfold omitempty_bool.
  destruct b; cbn [decode_members].
  - rewrite find_field_name. cbn. destruct err; reflexivity.
  - f_equal. rewrite <- Hc. destruct c; reflexivity.
Qed.

Lemma decode_element_strings (l : list string) :
  decode_element <$> (JString <$> l) = l /\
  List.find (fun e => negb (element_fits e)) (JString <$> l) = None.
Proof.
  induction l as [| s l [IH1 IH2]]; [split; reflexivity|].
  split; cbn; [f_equal; exact IH1 | exact IH2].
Qed.

Lemma decode_omitempty_strings (l : option (list string)) (c : Config)
  (err : option error) :
  Scopes c = None ->
  l <> Some [] ->
  decode_members (omitempty_strings FScopes l) c err = (set_Scopes l c, err).
Proof.
  intros Hc Hl. unfold omitempty_strings.
  destruct l as [[| s l]|]; cbn [decode_members]; [congruence | |].
  2:{ f_equal. rewrite <- Hc. destruct c; reflexivity. }
  - rewrite find_field_name. cbn [decode_field].
    destruct (decode_element_strings (s :: l)) as [-> ->].
    destruct err; reflexivity.
Qed.

(** What [json.Marshal] builds for a configuration, [json.Unmarshal]
    decodes into a new configuration equal to it, fields left out
    included. *)
Lemma decode_Config_json (cfg : Config) (ms : list (string * json)) :
  Scopes cfg <> Some [] ->
  Config_json cfg = JObject ms ->
  decode_members ms new_Config None = (cfg, None).
Proof.
  unfold Config_json. intros Hsc [= <-].
  repeat (rewrite decode_members_app;
          first [ rewrite decode_omitempty_string by reflexivity
                | rewrite decode_omitempty_bool by reflexivity
                | rewrite decode_omitempty_strings
                    by first [reflexivity | exact Hsc] ]).
  rewrite decode_omitempty_string by reflexivity.
  destruct cfg; reflexivity.
Qed.

(** [Load] after [Save], for a text layer that reads back the document
    that was written as [doc]: the configuration loaded is the one decoded
    from [doc]. *)
Lemma Load_after_Save (os os' : OS) (cfg : Config) (doc : json) :
  Save os cfg = (os', None) ->
  refuses os OpStat (fst (Location os)) = None ->
  refuses os OpRead (fst (Location os)) = None ->
  json_parse (json_indent EmptyString "  " (Config_json cfg)) = Ok doc ->
  Load os' =
    match doc with
    | JNull => (Some new_Config, None)
    | JObject ms =>
        match decode_members ms new_Config None with
        | (c, Some err) =>
            (Some c,
             Some (Errorf ("can't parse config file '" +:+ fst (Location os)
                           +:+ "': " +:+ Error err)))
        | (c, None) => (Some c, None)
        end
    | v =>
        (Some new_Config,
         Some (Errorf ("can't parse config file '" +:+ fst (Location os)
                       +:+ "': " +:+ Error (UnmarshalTypeError v None))))
    end.
Proof.
  unfold Save, MarshalIndent.
  destruct (Location os) as [file [e|]] eqn:Hloc; [discriminate|].
  unfold WriteFile. cbn [fst].
  destruct (refuses os OpOpen file) as [e|]; [discriminate|].
  destruct (refuses os OpWrite file) as [e|]; [discriminate|].
  intros [= <-] Hstat Hread Hparse.
  unfold Load.
  replace (Location _) with (Location os) by reflexivity. rewrite Hloc.
  unfold Stat, ReadFile. cbn [refuses files].
  rewrite Hstat, Hread, lookup_insert_eq. cbn [IsNotExist].
  unfold Unmarshal. rewrite Hparse.
  destruct doc; reflexivity.
Qed.

(** C9, as amended: when there is no file at the location of the
    configuration and [stat] tells so, that is, the system does not answer
    it with an error of another kind, [Load] returns no configuration and no
    error, and [Remove] returns no error and leaves the state as it is. *)
Theorem Load_Remove_missing_file (os : OS) (file : string) :
  Location os = (file, None) ->
  files os !! file = None ->
  (forall err : error,
     refuses os OpStat file = Some err -> IsNotExist (Some err) = true) ->
  Load os = (None, None) /\ Remove os = (os, None).
Proof.
  intros Hloc Hfile Hstat.
  assert (Hn : IsNotExist (Stat os file) = true).
  { unfold Stat. rewrite Hfile.
    destruct (refuses os OpStat file) as [e|] eqn:He; [|reflexivity].
    apply (Hstat e). reflexivity. }
  unfold Load, Remove. rewrite Hloc, Hn. split; reflexivity.
Qed.

(** ** Further properties of [Armed] and [tokenExpiry] *)

Lemma nonempty_spec (s : string) :
  (nonempty s = true <-> s <> EmptyString) /\
  (nonempty s = false <-> s = EmptyString).
Proof. destruct s; cbn; repeat split; congruence. Qed.

Lemma has_static_credentials_tests (cfg : Config) :
  has_static_credentials cfg <->
  nonempty (User cfg) && nonempty (Password cfg) = true \/
  nonempty (ClientID cfg) && nonempty (ClientSecret cfg) = true.
Proof.
  unfold has_static_credentials.
  rewrite !andb_true_iff.
  rewrite !(proj1 (nonempty_spec _)). tauto.
Qed.

(** The outcome of one token block of [Armed], in the words of the
    vocabulary. *)
Lemma token_block_spec (text : string) (now : Time) (margin : Duration) :
  match
    (if nonempty text then
       match tokenExpiry text now with
       | (_, _, Some err) => Some (false, Some err)
       | (expires, left_, None) =>
           if negb expires || (margin <? left_) then Some (true, None)
           else None
       end
     else None)
  with
  | Some (true, None) => token_fresh text now margin
  | Some (false, Some err) => token_fails text now err
  | None => token_stale text now margin
  | _ => False
  end.
Proof.
  destruct text as [| a text]; cbn [nonempty].
  { left. reflexivity. }
  assert (Hne : String a text <> EmptyString) by discriminate.
  destruct (tokenExpiry (String a text) now) as [[ex l] [e|]] eqn:He.
  - split; [exact Hne | eauto].
  - destruct ex; cbn [negb orb].
    + destruct (Z.ltb_spec margin l) as [Hl | Hl].
      * split; [exact Hne|]. exists true, l. auto.
      * right. exists l. auto.
    + split; [exact Hne|]. exists false, l. auto.
Qed.

(** The three outcomes of a token exclude each other. *)
Lemma token_outcomes_exclusive (text : string) (now : Time)
  (margin : Duration) :
  (token_fresh text now margin -> token_stale text now margin -> False) /\
  (forall err, token_fails text now err ->
               token_fresh text now margin \/ token_stale text now margin ->
               False) /\
  (forall err err', token_fails text now err -> token_fails text now err' ->
                    err = err').
Proof.
  repeat split.
  - intros (Hne & ex & l & He & Hv) [Hs | (l' & He' & Hl')]; [congruence|].
    rewrite He in He'. injection He' as -> ->.
    destruct Hv as [Hv | Hv]; [discriminate | lia].
  - intros err (Hne & ex & l & He) [(_ & ex' & l' & He' & _) | [Hs | (l' & He' & _)]];
      congruence.
  - intros err err' (_ & ex & l & He) (_ & ex' & l' & He'). congruence.
Qed.

(** [Armed] on a record without a complete pair of static credentials,
    read from the outcomes of its two token blocks. *)
Lemma Armed_tokens_spec (cfg : Config) (now : Time) :
  ~ has_static_credentials cfg ->
  match Armed cfg now with
  | (true, None) =>
      token_fresh (AccessToken cfg) now (5 * Second) \/
      (token_stale (AccessToken cfg) now (5 * Second) /\
       token_fresh (RefreshToken cfg) now (10 * Second))
  | (false, Some err) =>
      token_fails (AccessToken cfg) now err \/
      (token_stale (AccessToken cfg) now (5 * Second) /\
       token_fails (RefreshToken cfg) now err)
  | (false, None) =>
      token_stale (AccessToken cfg) now (5 * Second) /\
      token_stale (RefreshToken cfg) now (10 * Second)
  | (true, Some _) => False
  end.
Proof.
  intros Hns. rewrite has_static_credentials_tests in Hns.
  unfold Armed.
  destruct (nonempty (User cfg) && nonempty (Password cfg)); [tauto|].
  destruct (nonempty (ClientID cfg) && nonempty (ClientSecret cfg)); [tauto|].
  pose proof (token_block_spec (AccessToken cfg) now (5 * Second)) as Ha.
  pose proof (token_block_spec (RefreshToken cfg) now (10 * Second)) as Hr.
  destruct (if nonempty (AccessToken cfg) then _ else _)
    as [[[|] [e|]]|]; try contradiction; auto.
  destruct (if nonempty (RefreshToken cfg) then _ else _)
    as [[[|] [e|]]|]; try contradiction; auto.
Qed.

(** X1: [Armed] returns armed without error exactly when a pair of static
    credentials is complete, or the access token is fresh by more than 5
    seconds, or the access token is absent or stale and the refresh token
    is fresh by more than 10 seconds. *)
Theorem Armed_true_iff (cfg : Config) (now : Time) :
  Armed cfg now = (true, None) <->
  has_static_credentials cfg \/
  token_fresh (AccessToken cfg) now (5 * Second) \/
  (token_stale (AccessToken cfg) now (5 * Second) /\
   token_fresh (RefreshToken cfg) now (10 * Second)).
Proof.
  assert (Hdec : has_static_credentials cfg \/ ~ has_static_credentials cfg).
  { rewrite has_static_credentials_tests.
    destruct (nonempty (User cfg) && nonempty (Password cfg));
      destruct (nonempty (ClientID cfg) && nonempty (ClientSecret cfg));
      intuition congruence. }
  destruct Hdec as [Hs | Hns].
  - split; [auto|]. intros _.
    apply has_static_credentials_tests in Hs. unfold Armed.
    destruct (nonempty (User cfg) && nonempty (Password cfg)); [reflexivity|].
    destruct Hs as [Hs | Hs]; [discriminate|]. rewrite Hs. reflexivity.
  - pose proof (Armed_tokens_spec cfg now Hns) as H.
    destruct (token_outcomes_exclusive (AccessToken cfg) now (5 * Second))
      as (Xa1 & Xa2 & _).
    destruct (token_outcomes_exclusive (RefreshToken cfg) now (10 * Second))
      as (Xr1 & Xr2 & _).
    split.
    + intros E. rewrite E in H. tauto.
    + intros [Hs | Hok]; [contradiction|].
      destruct (Armed cfg now) as [[|] [e|]]; try contradiction;
        try reflexivity; exfalso.
      * destruct H as [Hf | [Hst Hf]], Hok as [Hok | [Hst' Hok]];
          eauto using Xa2, Xr2.
      * destruct H as [Hst Hst2], Hok as [Hok | [Hst' Hok]]; eauto.
Qed.

(** X2: [Armed] returns an error exactly when no pair of static
    credentials is complete and either the evaluation of the access token
    fails with it, or the access token is absent or stale and the
    evaluation of the refresh token fails with it. *)
Theorem Armed_error_iff (cfg : Config) (now : Time) (err : error) :
  Armed cfg now = (false, Some err) <->
  ~ has_static_credentials cfg /\
  (token_fails (AccessToken cfg) now err \/
   (token_stale (AccessToken cfg) now (5 * Second) /\
    token_fails (RefreshToken cfg) now err)).
Proof.
  assert (Hdec : has_static_credentials cfg \/ ~ has_static_credentials cfg).
  { rewrite has_static_credentials_tests.
    destruct (nonempty (User cfg) && nonempty (Password cfg));
      destruct (nonempty (ClientID cfg) && nonempty (ClientSecret cfg));
      intuition congruence. }
  destruct Hdec as [Hs | Hns].
  - split; [|tauto]. intros E. exfalso.
    apply has_static_credentials_tests in Hs. unfold Armed in E.
    destruct (nonempty (User cfg) && nonempty (Password cfg)); [discriminate|].
    destruct Hs as [Hs | Hs]; [discriminate|]. rewrite Hs in E. discriminate.
  - pose proof (Armed_tokens_spec cfg now Hns) as H.
    destruct (token_outcomes_exclusive (AccessToken cfg) now (5 * Second))
      as (Xa1 & Xa2 & Xa3).
    destruct (token_outcomes_exclusive (RefreshToken cfg) now (10 * Second))
      as (Xr1 & Xr2 & Xr3).
    split.
    + intros E. rewrite E in H. tauto.
    + intros [_ Hf].
      destruct (Armed cfg now) as [[|] [e|]]; try contradiction.
      * exfalso.
        destruct H as [Hok | [Hst Hok]], Hf as [Hf | [Hst' Hf]];
          eauto using Xa2, Xr2.
      * f_equal. f_equal.
        destruct H as [Hf' | [Hst Hf']], Hf as [Hf | [Hst' Hf]];
          first [ apply (Xa3 _ _ Hf' Hf) | apply (Xr3 _ _ Hf' Hf)
                | exfalso; eauto using Xa2, Xr2 ].
      * exfalso.
        destruct H as [Hst Hst2], Hf as [Hf | [Hst' Hf]];
          eauto using Xa2, Xr2.
Qed.

(** X3: [Armed] reads six fields only: two records with the same user,
    password, client id, client secret, access token and refresh token get
    the same results, whatever their other fields are. *)
Theorem Armed_same_credentials (a b : Config) (now : Time) :
  same_credentials a b -> Armed a now = Armed b now.
Proof.
  intros (Hu & Hp & Hi & Hs & Ha & Hr). unfold Armed.
  rewrite Hu, Hp, Hi, Hs, Ha, Hr. reflexivity.
Qed.

Lemma Sub_range (t u : Time) : MinInt64 <= Sub t u <= MaxInt64.
Proof.
  unfold Sub, minDuration, maxDuration.
  assert (MinInt64 <= MaxInt64) by (apply Z.leb_le; reflexivity).
  destruct (Z.ltb_spec (t - u) MinInt64); [lia|].
  destruct (Z.ltb_spec MaxInt64 (t - u)); lia.
Qed.

Lemma Sub_later (t u u' : Time) : u <= u' -> Sub t u' <= Sub t u.
Proof.
  intros Hle. unfold Sub, minDuration, maxDuration.
  assert (MinInt64 <= MaxInt64) by (apply Z.leb_le; reflexivity).
  destruct (Z.ltb_spec (t - u') MinInt64);
    destruct (Z.ltb_spec (t - u) MinInt64); try lia;
    destruct (Z.ltb_spec MaxInt64 (t - u'));
    destruct (Z.ltb_spec MaxInt64 (t - u)); lia.
Qed.

(** The results of [tokenExpiry] at two times: only what is left depends
    on the time, and it shrinks as the time goes on. *)
Lemma tokenExpiry_later (text : string) (now now' : Time)
  (expires : bool) (left_ : Duration) (err : option error) :
  now <= now' ->
  tokenExpiry text now = (expires, left_, err) ->
  exists left' : Duration,
    tokenExpiry text now' = (expires, left', err) /\ left' <= left_.
Proof.
  intros Hle. unfold tokenExpiry.
  destruct (ParseUnverified text) as [[[m|ty]]|e]; cbn [Token_Claims];
    try (intros [= <- <- <-]; exists 0; split; [reflexivity | lia]).
  destruct (m !! "exp") as [v|];
    [|intros [= <- <- <-]; exists 0; split; [reflexivity | lia]].
  destruct v as [| b | x | s | l | l];
    try (intros [= <- <- <-]; exists 0; split; [reflexivity | lia]).
  destruct (float64_is_zero x); intros [= <- <- <-].
  - exists 0. split; [reflexivity | lia].
  - eexists. split; [reflexivity|]. apply Sub_later. exact Hle.
Qed.

(** X4: the results of [tokenExpiry] are well formed: what is left fits a
    64-bit duration, it is zero when the token does not expire, and an
    error comes with [expires = false] and nothing left. *)
Theorem tokenExpiry_results_wf (text : string) (now : Time)
  (expires : bool) (left_ : Duration) (err : option error) :
  tokenExpiry text now = (expires, left_, err) ->
  MinInt64 <= left_ <= MaxInt64 /\
  (expires = false -> left_ = 0) /\
  (err <> None -> expires = false).
Proof.
  assert (H0 : MinInt64 <= 0 <= MaxInt64)
    by (split; apply Z.leb_le; reflexivity).
  unfold tokenExpiry.
  destruct (ParseUnverified text) as [[[m|ty]]|e]; cbn [Token_Claims];
    try (intros [= <- <- <-]; auto).
  destruct (m !! "exp") as [v|]; [|intros [= <- <- <-]; auto].
  destruct v as [| b | x | s | l | l]; try (intros [= <- <- <-]; auto).
  destruct (float64_is_zero x); intros [= <- <- <-]; [auto|].
  split; [apply Sub_range|]. split; [discriminate | congruence].
Qed.

(** X5: the time only enters [tokenExpiry] through what is left: at a
    later time the token expires or not as before, fails or not with the
    same error, and has no more left than before. *)
Theorem tokenExpiry_time_passes (text : string) (now now' : Time)
  (expires : bool) (left_ : Duration) (err : option error) :
  now <= now' ->
  tokenExpiry text now = (expires, left_, err) ->
  exists left' : Duration,
    tokenExpiry text now' = (expires, left', err) /\ left' <= left_.
Proof. apply tokenExpiry_later. Qed.

(** [Armed] in terms of its two token blocks. *)
Lemma Armed_blocks (cfg : Config) (now : Time) :
  Armed cfg now =
  if nonempty (User cfg) && nonempty (Password cfg) then (true, None)
  else if nonempty (ClientID cfg) && nonempty (ClientSecret cfg)
  then (true, None)
  else
    match token_block (AccessToken cfg) now (5 * Second) with
    | Some results => results
    | None =>
        match token_block (RefreshToken cfg) now (10 * Second) with
        | Some results => results
        | None => (false, None)
        end
    end.
Proof. reflexivity. Qed.

(** A block returns armed without error, or an error without armed, or
    falls through. *)
Lemma token_block_cases (text : string) (now : Time) (margin : Duration) :
  token_block text now margin = Some (true, None) \/
  (exists err, token_block text now margin = Some (false, Some err)) \/
  token_block text now margin = None.
Proof.
  unfold token_block. destruct (nonempty text); [|auto].
  destruct (tokenExpiry text now) as [[ex l] [e|]]; [eauto|].
  destruct (negb ex || (margin <? l)); auto.
Qed.

(** One token block at two times: a return with armed true at the later
    time is one at the earlier time, a fall through or an error at the
    earlier time is one at the later time. *)
Lemma token_block_later (text : string) (now now' : Time) (margin : Duration) :
  now <= now' ->
  (token_block text now' margin = Some (true, None) ->
   token_block text now margin = Some (true, None)) /\
  (token_block text now margin = None ->
   token_block text now' margin = None) /\
  (forall err, token_block text now margin = Some (false, Some err) ->
               token_block text now' margin = Some (false, Some err)).
Proof.
  intros Hle. unfold token_block.
  destruct (nonempty text); [|repeat split; congruence].
  destruct (tokenExpiry text now) as [[ex l] e] eqn:He.
  destruct (tokenExpiry_later text now now' ex l e Hle He) as (l' & -> & Hl).
  destruct e as [e|]; [repeat split; congruence|].
  destruct ex; cbn [negb orb]; [|repeat split; congruence].
  destruct (Z.ltb_spec margin l), (Z.ltb_spec margin l');
    repeat split; try congruence; lia.
Qed.

(** X6: being armed can only be lost as time passes.  For [now <= now'],
    a record armed at [now'] is armed at [now], a record that is not armed
    at [now] is not armed at [now'], and an error at [now] is the error at
    [now']. *)
Theorem Armed_time_passes (cfg : Config) (now now' : Time) :
  now <= now' ->
  (Armed cfg now' = (true, None) -> Armed cfg now = (true, None)) /\
  (Armed cfg now = (false, None) -> Armed cfg now' = (false, None)) /\
  (forall err : error,
     Armed cfg now = (false, Some err) -> Armed cfg now' = (false, Some err)).
Proof.
  intros Hle. rewrite !Armed_blocks.
  destruct (nonempty (User cfg) && nonempty (Password cfg));
    [repeat split; congruence|].
  destruct (nonempty (ClientID cfg) && nonempty (ClientSecret cfg));
    [repeat split; congruence|].
  destruct (token_block_later (AccessToken cfg) now now' (5 * Second) Hle)
    as (Ha1 & Ha2 & Ha3).
  destruct (token_block_later (RefreshToken cfg) now now' (10 * Second) Hle)
    as (Hr1 & Hr2 & Hr3).
  destruct (token_block_cases (AccessToken cfg) now (5 * Second))
    as [Ea | [[ea Ea] | Ea]].
  - rewrite Ea. repeat split; congruence.
  - rewrite Ea, (Ha3 ea Ea). repeat split; congruence.
  - rewrite Ea, (Ha2 Ea).
    destruct (token_block_cases (RefreshToken cfg) now (10 * Second))
      as [Er | [[er Er] | Er]].
    + rewrite Er. repeat split; congruence.
    + rewrite Er, (Hr3 er Er). repeat split; congruence.
    + rewrite Er, (Hr2 Er). repeat split; congruence.
Qed.

(** ** Further properties of the configuration file *)

(** [Location] succeeds exactly when [HOME] is not empty. *)
Lemma Location_home (os : OS) :
  (Getenv os "HOME" = EmptyString -> Location os = (EmptyString, Some no_home)) /\
  (Getenv os "HOME" <> EmptyString ->
   Location os = (filepath_Join [Getenv os "HOME"; ".uhc.json"], None)).
Proof.
  unfold Location. split; intros H.
  - rewrite H. reflexivity.
  - rewrite (nonempty_true _ H). reflexivity.
Qed.

(** X7: without a home directory nothing is read or written: [Location]
    fails, and [Load], [Save] and [Remove] return its error, [Load] without
    a configuration, [Save] and [Remove] with the state as it was. *)
Theorem no_home_no_file_access (os : OS) :
  Getenv os "HOME" = EmptyString ->
  Location os = (EmptyString, Some no_home) /\
  Load os = (None, Some no_home) /\
  (forall cfg : Config, Save os cfg = (os, Some no_home)) /\
  Remove os = (os, Some no_home).
Proof.
  intros H. pose proof (proj1 (Location_home os) H) as HL.
  unfold Load, Save, Remove. rewrite HL. auto.
Qed.

(** X8: [Load] returns neither a configuration nor an error exactly when
    the location resolves and the system reports that there is no file
    there. *)
Theorem Load_nothing_iff (os : OS) :
  Load os = (None, None) <->
  exists file : string,
    Location os = (file, None) /\ IsNotExist (Stat os file) = true.
Proof.
  unfold Load. split.
  - destruct (Location os) as [file [e|]]; [discriminate|].
    destruct (IsNotExist (Stat os file)) eqn:Hn; [eauto|].
    destruct (Stat os file); [discriminate|].
    destruct (ReadFile os file) as [data|e]; [|discriminate].
    destruct (Unmarshal data new_Config) as [c [e|]]; discriminate.
  - intros (file & -> & ->). reflexivity.
Qed.

(** X9: a configuration file that is not JSON makes [Load] return the
    parse error with the name of the file, together with a configuration
    that is not nil and has every field empty. *)
Theorem Load_invalid_json (os : OS) (file data : string) (err : error) :
  Location os = (file, None) ->
  Stat os file = None ->
  ReadFile os file = Ok data ->
  json_parse data = Err err ->
  Load os =
    (Some new_Config,
     Some (Errorf ("can't parse config file '" +:+ file +:+ "': "
                   +:+ Error err))).
Proof.
  intros HL HS HR HP. unfold Load, Unmarshal.
  rewrite HL, HS, HR, HP. reflexivity.
Qed.

(** X10: when [stat] fails for another reason than a missing file, [Load]
    stops with an error that names the file, but [Remove] goes on and
    returns what [os.Remove] returns. *)
Theorem stat_error_Load_stops_Remove_goes_on (os : OS) (file : string)
  (err : error) :
  Location os = (file, None) ->
  Stat os file = Some err ->
  IsNotExist (Some err) = false ->
  Load os =
    (None,
     Some (Errorf ("can't check if config file '" +:+ file +:+ "' exists: "
                   +:+ Error err))) /\
  Remove os = os_Remove os file.
Proof.
  intros HL HS HN. unfold Load, Remove. rewrite HL, HS, HN.
  split; [reflexivity|].
  destruct (os_Remove os file) as [os' [e|]]; reflexivity.
Qed.

(** What [WriteFile] and [os.Remove] leave as it was.  A [WriteFile]
    that fails leaves the file as it was, when the open was refused, or
    with a part of the data from its start. *)
Lemma WriteFile_frame (os : OS) (file data : string) (perm : Z) :
  let '(os', err) := WriteFile os file data perm in
  environ os' = environ os /\ refuses os' = refuses os /\
  short_write os' = short_write os /\
  (forall p : string, p <> file -> files os' !! p = files os !! p) /\
  (err <> None ->
   os' = os \/
   exists n : nat, files os' !! file = Some (string_take n data)) /\
  (refuses os OpOpen file <> None -> os' = os).
Proof.
  unfold WriteFile. destruct (refuses os OpOpen file).
  - repeat split; auto.
  - destruct (refuses os OpWrite file); cbn; repeat split;
      try congruence;
      try (intros p Hp; apply lookup_insert_ne; congruence).
    intros _. right. eexists. apply lookup_insert_eq.
Qed.

Lemma os_Remove_frame (os : OS) (file : string) :
  let '(os', err) := os_Remove os file in
  environ os' = environ os /\ refuses os' = refuses os /\
  (forall p : string, p <> file -> files os' !! p = files os !! p) /\
  (err <> None -> os' = os).
Proof.
  unfold os_Remove. destruct (refuses os OpRemove file).
  - repeat split; congruence.
  - destruct (files os !! file); cbn; repeat split; try congruence.
    intros p Hp. apply lookup_delete_ne. congruence.
Qed.

(** X11: [Save] touches the configuration file only: the environment,
    what the system refuses and every other file are as before, also when
    it fails.  A [Save] that returns an error leaves the whole state as it
    was when the location does not resolve or the file cannot be opened;
    after a failed write the configuration file holds a part, from its
    start, of the text that was to be written. *)
Theorem Save_frame (os : OS) (cfg : Config) :
  environ (fst (Save os cfg)) = environ os /\
  refuses (fst (Save os cfg)) = refuses os /\
  (forall p : string,
     p <> fst (Location os) ->
     files (fst (Save os cfg)) !! p = files os !! p) /\
  (snd (Save os cfg) <> None ->
   fst (Save os cfg) = os \/
   exists n : nat,
     files (fst (Save os cfg)) !! fst (Location os)
     = Some (string_take n (json_indent EmptyString "  " (Config_json cfg)))) /\
  (snd (Location os) <> None \/
   refuses os OpOpen (fst (Location os)) <> None ->
   fst (Save os cfg) = os).
Proof.
  unfold Save, MarshalIndent.
  destruct (Location os) as [file [e|]]; cbn [fst snd]; [auto 10|].
  pose proof (WriteFile_frame os file
                (json_indent EmptyString "  " (Config_json cfg)) 384) as H.
  destruct (WriteFile os file _ 384) as [os' [e|]]; cbn [fst snd];
    destruct H as (H1 & H2 & H3 & H4 & H5 & H6); repeat split; auto;
    try congruence.
  - intros [Habs | Hopen]; [congruence | auto].
  - intros [Habs | Hopen]; [congruence | auto].
Qed.

(** X12: [Remove] touches the configuration file only: the environment,
    what the system refuses and every other file are as before, and a
    [Remove] that returns an error leaves the whole state as it was. *)
Theorem Remove_frame (os : OS) :
  environ (fst (Remove os)) = environ os /\
  refuses (fst (Remove os)) = refuses os /\
  (forall p : string,
     p <> fst (Location os) ->
     files (fst (Remove os)) !! p = files os !! p) /\
  (snd (Remove os) <> None -> fst (Remove os) = os).
Proof.
  unfold Remove.
  destruct (Location os) as [file [e|]]; cbn [fst snd]; [auto|].
  destruct (IsNotExist (Stat os file)); cbn [fst snd]; [auto|].
  pose proof (os_Remove_frame os file) as H.
  destruct (os_Remove os file) as [os' [e|]]; cbn [fst snd];
    destruct H as (H1 & H2 & H3 & H4); repeat split; auto; congruence.
Qed.

(** X13: the last [Save] wins: after a [Save] that succeeded, a second
    [Save] gives the state and the error that it gives without the
    first. *)
Theorem Save_Save (os os1 : OS) (cfg1 cfg2 : Config) :
  Save os cfg1 = (os1, None) ->
  Save os1 cfg2 = Save os cfg2.
Proof.
  unfold Save, MarshalIndent.
  destruct (Location os) as [file [e|]] eqn:HL; [discriminate|].
  unfold WriteFile.
  destruct (refuses os OpOpen file) as [e|] eqn:HO; [discriminate|].
  destruct (refuses os OpWrite file) as [e|] eqn:HW; [discriminate|].
  intros [= <-].
  replace (Location _) with (Location os) by reflexivity.
  rewrite HL. cbn [refuses files environ]. rewrite HO, HW.
  rewrite insert_insert_eq. reflexivity.
Qed.

(** X14: on a system without configuration file, a [Save] and then a
    [Remove], both allowed by the system, give back the state before the
    [Save]. *)
Theorem Save_Remove_restores (os os1 : OS) (cfg : Config) :
  files os !! fst (Location os) = None ->
  refuses os OpStat (fst (Location os)) = None ->
  refuses os OpRemove (fst (Location os)) = None ->
  Save os cfg = (os1, None) ->
  Remove os1 = (os, None).
Proof.
  unfold Save, MarshalIndent.
  destruct (Location os) as [file [e|]] eqn:HL; [discriminate|].
  cbn [fst]. unfold WriteFile.
  destruct (refuses os OpOpen file) as [e|] eqn:HO; [discriminate|].
  destruct (refuses os OpWrite file) as [e|] eqn:HW; [discriminate|].
  intros Hf Hs Hr [= <-].
  unfold Remove. replace (Location _) with (Location os) by reflexivity.
  rewrite HL. unfold Stat, os_Remove. cbn [refuses files environ].
  rewrite Hs, Hr, lookup_insert_eq. cbn [IsNotExist].
  rewrite delete_insert_eq, (delete_id _ _ Hf).
  destruct os; reflexivity.
Qed.

(** X15: after a [Remove] that succeeded, with [stat] allowed, there is
    no configuration: [Load] returns neither configuration nor error, and a
    second [Remove] succeeds and changes nothing. *)
Theorem Remove_then_nothing (os os' : OS) :
  refuses os OpStat (fst (Location os)) = None ->
  Remove os = (os', None) ->
  Load os' = (None, None) /\ Remove os' = (os', None).
Proof.
  unfold Remove.
  destruct (Location os) as [file [e|]] eqn:HL; [discriminate|].
  cbn [fst]. intros Hs.
  assert (Hgone : forall o : OS,
             environ o = environ os -> refuses o = refuses os ->
             files o !! file = None ->
             Load o = (None, None) /\ Remove o = (o, None)).
  { intros o He Hr Hf.
    assert (HLo : Location o = (file, None)).
    { rewrite <- HL. unfold Location, Getenv. rewrite He. reflexivity. }
    unfold Load, Remove. rewrite HLo. unfold Stat. rewrite Hr, Hs, Hf.
    split; reflexivity. }
  destruct (IsNotExist (Stat os file)) eqn:Hn.
  - intros [= <-]. apply Hgone; try reflexivity.
    unfold Stat in Hn. rewrite Hs in Hn.
    destruct (files os !! file); [discriminate | reflexivity].
  - unfold os_Remove.
    destruct (refuses os OpRemove file); [discriminate|].
    destruct (files os !! file); [|discriminate].
    intros [= <-]. apply Hgone; try reflexivity.
    cbn. apply lookup_delete_eq.
Qed.

(** ** Further properties of the JSON form *)

(** The keys that one field contributes, and its values. *)
Lemma omitempty_keys (f : field) (ms : list (string * json)) :
  (exists s, ms = omitempty_string f s) \/
  (exists b, ms = omitempty_bool f b) \/
  (exists l, ms = omitempty_strings f l) ->
  fst <$> ms `sublist_of` [field_name f] /\
  (forall (k : string) (v : json),
     (k, v) ∈ ms ->
     v <> JNull /\ v <> JString EmptyString /\ v <> JBool false /\
     v <> JArray []).
Proof.
  intros [[s ->] | [[b ->] | [l ->]]];
    [destruct s | destruct b | destruct l as [[|]|]]; cbn;
    (split; [first [ apply sublist_nil_l | reflexivity ]|]);
    intros k v Hin;
    first [ apply elem_of_nil in Hin; contradiction
          | apply list_elem_of_singleton in Hin; injection Hin as -> ->;
            repeat split; discriminate ].
Qed.

Lemma fields_names_NoDup : NoDup (field_name <$> fields).
Proof. apply (bool_decide_unpack _). vm_compute. exact I. Qed.

(** X16: the JSON object written for a configuration has a member only
    for the fields that are not empty: its keys are distinct tags, no
    member is [null], an empty string, [false] or an empty array, and the
    object has no member at all exactly for the configurations whose fields
    are all empty, [Scopes] being nil or without elements. *)
Theorem Config_json_omits_empty (cfg : Config) :
  exists ms : list (string * json),
    Config_json cfg = JObject ms /\
    NoDup (fst <$> ms) /\
    (forall (k : string) (v : json),
       (k, v) ∈ ms ->
       v <> JNull /\ v <> JString EmptyString /\ v <> JBool false /\
       v <> JArray []) /\
    (ms = [] <->
     cfg = new_Config \/ cfg = set_Scopes (Some []) new_Config).
Proof.
  eexists. split; [reflexivity|].
  pose proof (fun f s => proj1 (omitempty_keys f (omitempty_string f s)
                                  (or_introl (ex_intro _ s eq_refl)))) as Ks.
  pose proof (fun f s => proj2 (omitempty_keys f (omitempty_string f s)
                                  (or_introl (ex_intro _ s eq_refl)))) as Vs.
  pose proof (proj1 (omitempty_keys FInsecure
                       (omitempty_bool FInsecure (Insecure cfg))
                       (or_intror (or_introl (ex_intro _ _ eq_refl))))) as Kb.
  pose proof (proj2 (omitempty_keys FInsecure
                       (omitempty_bool FInsecure (Insecure cfg))
                       (or_intror (or_introl (ex_intro _ _ eq_refl))))) as Vb.
  pose proof (proj1 (omitempty_keys FScopes
                       (omitempty_strings FScopes (Scopes cfg))
                       (or_intror (or_intror (ex_intro _ _ eq_refl))))) as Kl.
  pose proof (proj2 (omitempty_keys FScopes
                       (omitempty_strings FScopes (Scopes cfg))
                       (or_intror (or_intror (ex_intro _ _ eq_refl))))) as Vl.
  split; [|split].
  - refine (sublist_NoDup _ _ fields_names_NoDup _).
    rewrite !fmap_app.
    change (field_name <$> fields) with
      ([field_name FAccessToken] ++ [field_name FClientID]
       ++ [field_name FClientSecret] ++ [field_name FInsecure]
       ++ [field_name FPassword] ++ [field_name FRefreshToken]
       ++ [field_name FScopes] ++ [field_name FToken]
       ++ [field_name FTokenURL] ++ [field_name FURL]
       ++ [field_name FUser])%list.
    repeat (apply sublist_app; [first [apply Ks | apply Kb | apply Kl]|]).
    apply Ks.
  - intros k v. rewrite !elem_of_app.
    intros Hin.
    repeat (destruct Hin as [Hin | Hin];
            [first [ exact (Vs _ _ k v Hin) | exact (Vb k v Hin)
                   | exact (Vl k v Hin) ]|]).
    exact (Vs _ _ k v Hin).
  - split.
    + rewrite !app_nil. unfold omitempty_string, omitempty_bool,
        omitempty_strings.
      destruct cfg as [a ci cs i pw r sc t tu u us]; cbn.
      intros (Ha & Hci & Hcs & Hi & Hpw & Hr & Hsc & Ht & Htu & Hu & Hus).
      destruct a; [|discriminate]. destruct ci; [|discriminate].
      destruct cs; [|discriminate]. destruct i; [discriminate|].
      destruct pw; [|discriminate]. destruct r; [|discriminate].
      destruct t; [|discriminate].
      destruct tu; [|discriminate]. destruct u; [|discriminate].
      destruct us; [|discriminate].
      destruct sc as [[|]|]; [right | discriminate | left]; reflexivity.
    + intros [-> | ->]; reflexivity.
Qed.

(** ** Further properties, continued *)

(** X17: [Armed] returns not armed without error exactly when no pair of
    static credentials is complete and each token is absent or stale: the
    access token by its margin of 5 seconds, the refresh token by its
    margin of 10 seconds. *)
Theorem Armed_false_iff (cfg : Config) (now : Time) :
  Armed cfg now = (false, None) <->
  ~ has_static_credentials cfg /\
  token_stale (AccessToken cfg) now (5 * Second) /\
  token_stale (RefreshToken cfg) now (10 * Second).
Proof.
  assert (Hdec : has_static_credentials cfg \/ ~ has_static_credentials cfg).
  { rewrite has_static_credentials_tests.
    destruct (nonempty (User cfg) && nonempty (Password cfg));
      destruct (nonempty (ClientID cfg) && nonempty (ClientSecret cfg));
      intuition congruence. }
  destruct Hdec as [Hs | Hns].
  - split; [|tauto]. intros E. exfalso.
    apply has_static_credentials_tests in Hs. unfold Armed in E.
    destruct (nonempty (User cfg) && nonempty (Password cfg)); [discriminate|].
    destruct Hs as [Hs | Hs]; [discriminate|]. rewrite Hs in E. discriminate.
  - pose proof (Armed_tokens_spec cfg now Hns) as H.
    destruct (token_outcomes_exclusive (AccessToken cfg) now (5 * Second))
      as (Xa1 & Xa2 & _).
    destruct (token_outcomes_exclusive (RefreshToken cfg) now (10 * Second))
      as (Xr1 & Xr2 & _).
    split.
    + intros E. rewrite E in H. tauto.
    + intros (_ & Hsa & Hsr).
      destruct (Armed cfg now) as [[|] [e|]]; try contradiction;
        try reflexivity; exfalso.
      * destruct H as [Hok | [_ Hok]]; eauto.
      * destruct H as [Hf | [_ Hf]]; eauto using Xa2, Xr2.
Qed.

(** X18: [Load] reads the variable [HOME] and the configuration file
    only: on two systems with the same [HOME], the same content or absence
    of that file and the same answers to its [stat] and its reading, it
    returns the same results, whatever else the systems hold. *)
Theorem Load_reads_only_config_file (os1 os2 : OS) :
  Getenv os1 "HOME" = Getenv os2 "HOME" ->
  files os1 !! fst (Location os1) = files os2 !! fst (Location os1) ->
  refuses os1 OpStat (fst (Location os1))
    = refuses os2 OpStat (fst (Location os1)) ->
  refuses os1 OpRead (fst (Location os1))
    = refuses os2 OpRead (fst (Location os1)) ->
  Load os1 = Load os2.
Proof.
  intros Hh.
  assert (HL : Location os2 = Location os1)
    by (unfold Location; rewrite Hh; reflexivity).
  unfold Load. rewrite HL.
  destruct (Location os1) as [file [e|]]; [reflexivity|].
  cbn [fst]. intros Hf Hs Hr.
  unfold Stat, ReadFile. rewrite Hf, Hs, Hr. reflexivity.
Qed.

(** X19: after a [Save] that succeeded, the configuration file holds the
    indented JSON text of the configuration and nothing of what it held
    before, at the location that [Location] still gives. *)
Theorem Save_writes_json (os os' : OS) (cfg : Config) :
  Save os cfg = (os', None) ->
  Location os' = Location os /\
  snd (Location os) = None /\
  files os' !! fst (Location os)
    = Some (json_indent EmptyString "  " (Config_json cfg)).
Proof.
  unfold Save, MarshalIndent.
  destruct (Location os) as [file [e|]] eqn:HL; [discriminate|].
  unfold WriteFile.
  destruct (refuses os OpOpen file) as [e|]; [discriminate|].
  destruct (refuses os OpWrite file) as [e|]; [discriminate|].
  intros [= <-]. cbn [fst snd files].
  split; [exact HL|]. split; [reflexivity|]. apply lookup_insert_eq.
Qed.

End Config.

(** ** The text of JSON documents read back *)

Lemma append_nil_l (s : string) : EmptyString +:+ s = s.
Proof. reflexivity. Qed.

Lemma append_cons (c : ascii) (a b : string) :
  String c a +:+ b = String c (a +:+ b).
Proof. reflexivity. Qed.

Lemma append_assoc (a b c : string) : (a +:+ b) +:+ c = a +:+ (b +:+ c).
Proof.
  induction a as [| x a IH]; [reflexivity|].
  rewrite !append_cons, IH. reflexivity.
Qed.

Lemma length_append (a b : string) :
  String.length (a +:+ b) = (String.length a + String.length b)%nat.
Proof.
  induction a as [| x a IH]; [reflexivity|].
  rewrite append_cons. cbn [String.length]. rewrite IH. reflexivity.
Qed.

Lemma is_byte_eq (n : N) (c : ascii) : is_byte n c = true -> c = ascii_of_N n.
Proof.
  unfold is_byte, byte. intros H. apply N.eqb_eq in H. rewrite <- H.
  symmetry. apply ascii_N_embedding.
Qed.

(** What the encoder writes for a character below [0x80], the decoder
    reads as that character. *)
Lemma unquote_escape_ascii (a : ascii) (tail : string) :
  is_ascii a = true ->
  unquote (escape_ascii a +:+ tail) = emit (String a EmptyString) (unquote tail).
Proof.
  destruct a as [[] [] [] [] [] [] [] []]; intros H;
    first [ discriminate H | reflexivity ].
Qed.

Lemma unquote_separators (tail : string) :
  unquote ("\" +:+ "u2028" +:+ tail)
  = emit (String (ascii_of_N 226) (String (ascii_of_N 128)
            (String (ascii_of_N 168) EmptyString))) (unquote tail) /\
  unquote ("\" +:+ "u2029" +:+ tail)
  = emit (String (ascii_of_N 226) (String (ascii_of_N 128)
            (String (ascii_of_N 169) EmptyString))) (unquote tail).
Proof. split; reflexivity. Qed.

Lemma unquote_valid2 (a b : ascii) (tail : string) :
  is_ascii a = false -> valid2 a b = true ->
  unquote (String a (String b tail))
  = emit (String a (String b EmptyString)) (unquote tail).
Proof. intros Ha Hv. cbn [unquote]. rewrite Ha, Hv. reflexivity. Qed.

Lemma unquote_valid3 (a b c : ascii) (tail : string) :
  is_ascii a = false -> valid2 a b = false -> valid3 a b c = true ->
  unquote (String a (String b (String c tail)))
  = emit (String a (String b (String c EmptyString))) (unquote tail).
Proof. intros Ha H2 H3. cbn [unquote]. rewrite Ha, H2, H3. reflexivity. Qed.

Lemma unquote_valid4 (a b c d : ascii) (tail : string) :
  is_ascii a = false -> valid2 a b = false -> valid3 a b c = false ->
  valid4 a b c d = true ->
  unquote (String a (String b (String c (String d tail))))
  = emit (String a (String b (String c (String d EmptyString))))
      (unquote tail).
Proof.
  intros Ha H2 H3 H4. cbn [unquote]. rewrite Ha, H2, H3, H4. reflexivity.
Qed.

(** What the encoder writes for a string of valid UTF-8, the decoder reads
    as that string, up to the closing quote. *)
Lemma unquote_escape (n : nat) :
  forall s : string,
    (String.length s <= n)%nat ->
    valid_utf8 s = true ->
    forall rest : string,
      unquote (escape s +:+ dquote +:+ rest) = Some (s, rest).
Proof.
  induction n as [| n IH]; intros s Hn Hv rest.
  { destruct s; [reflexivity | cbn in Hn; lia]. }
  destruct s as [| a s1]; [reflexivity|].
  cbn [String.length] in Hn.
  cbn [valid_utf8] in Hv. cbn [escape].
  destruct (is_ascii a) eqn:Ha.
  { rewrite append_assoc, (unquote_escape_ascii a _ Ha).
    rewrite IH by (auto; lia). reflexivity. }
  destruct s1 as [| b s2]; [discriminate|].
  cbn [String.length] in Hn.
  destruct (valid2 a b) eqn:H2.
  { rewrite !append_cons, (unquote_valid2 a b _ Ha H2).
    rewrite IH by (auto; lia). reflexivity. }
  destruct s2 as [| c s3]; [discriminate|].
  cbn [String.length] in Hn.
  destruct (valid3 a b c) eqn:H3.
  { destruct (is_line_separator a b c) eqn:Hl.
    { unfold is_line_separator in Hl.
      apply andb_prop in Hl. destruct Hl as [Hl Hc].
      apply andb_prop in Hl. destruct Hl as [Hx Hb].
      apply is_byte_eq in Hx, Hb, Hc. subst a b c.
      rewrite !append_assoc, (proj1 (unquote_separators _)).
      rewrite IH by (auto; lia). reflexivity. }
    destruct (is_paragraph_separator a b c) eqn:Hp.
    { unfold is_paragraph_separator in Hp.
      apply andb_prop in Hp. destruct Hp as [Hp Hc].
      apply andb_prop in Hp. destruct Hp as [Hx Hb].
      apply is_byte_eq in Hx, Hb, Hc. subst a b c.
      rewrite !append_assoc, (proj2 (unquote_separators _)).
      rewrite IH by (auto; lia). reflexivity. }
    rewrite !append_cons, (unquote_valid3 a b c _ Ha H2 H3).
    rewrite IH by (auto; lia). reflexivity. }
  destruct s3 as [| d s4]; [discriminate|].
  cbn [String.length] in Hn.
  destruct (valid4 a b c d) eqn:H4; [|discriminate].
  rewrite !append_cons, (unquote_valid4 a b c d _ Ha H2 H3 H4).
  rewrite IH by (auto; lia). reflexivity.
Qed.

Lemma element_lines_cons (inner x y : string) (l : list string) :
  element_lines inner (x :: y :: l)
  = quote x +:+ "," +:+ newline +:+ inner +:+ element_lines inner (y :: l).
Proof. reflexivity. Qed.

Lemma map_indent_strings (inner indent : string) (l : list string) :
  List.map (indent_value inner indent) (JString <$> l) = List.map quote l.
Proof. induction l as [| x l IH]; cbn; [reflexivity | f_equal; exact IH]. Qed.

(** The decoder on a quoted string after the spaces before it. *)
Lemma parse_value_quote (f : nat) (s tail : string) :
  valid_utf8 s = true ->
  (forall t, parse_value (S f) (newline +:+ "    " +:+ quote s +:+ t)
             = Some (JString s, t)) /\
  (forall t, parse_value (S f) (" " +:+ quote s +:+ t) = Some (JString s, t)).
Proof.
  intros Hv. split; intros t.
  - change (match unquote ((escape s +:+ dquote) +:+ t) with
            | Some (str, rest) => Some (JString str, rest)
            | None => None
            end = Some (JString s, t)).
    rewrite append_assoc, (unquote_escape _ s (le_n _) Hv). reflexivity.
  - change (match unquote ((escape s +:+ dquote) +:+ t) with
            | Some (str, rest) => Some (JString str, rest)
            | None => None
            end = Some (JString s, t)).
    rewrite append_assoc, (unquote_escape _ s (le_n _) Hv). reflexivity.
Qed.

(** The elements of an array of strings as [indent_value] lays them out
    at the second level, read back. *)
Lemma parse_elements_strings (l : list string) :
  forall (x : string) (f : nat) (rest : string),
    valid_utf8 x = true ->
    Forall (fun s => valid_utf8 s = true) l ->
    (String.length (element_lines "    " (x :: l)) < f)%nat ->
    parse_elements f
      (newline +:+ "    " +:+ element_lines "    " (x :: l)
       +:+ newline +:+ "  " +:+ "]" +:+ rest)
    = Some (JString <$> (x :: l), rest).
Proof.
  induction l as [| y l IH]; intros x f rest Hx Hl Hf.
  - destruct f as [| [| f]]; [cbn in Hf; lia | |].
    { unfold element_lines, quote in Hf. cbn [List.map sep_by] in Hf.
      rewrite !length_append in Hf. cbn in Hf. lia. }
    cbn [parse_elements].
    change (element_lines "    " [x]) with (quote x).
    rewrite (proj1 (parse_value_quote f x EmptyString Hx)).
    reflexivity.
  - destruct f as [| [| f]]; [cbn in Hf; lia | |].
    { rewrite element_lines_cons in Hf. unfold quote in Hf.
      rewrite !length_append in Hf. cbn in Hf. lia. }
    cbn [parse_elements]. rewrite element_lines_cons, !append_assoc.
    rewrite (proj1 (parse_value_quote f x EmptyString Hx)).
    change (match parse_elements (S f)
                    (newline +:+ "    " +:+ element_lines "    " (y :: l)
                     +:+ newline +:+ "  " +:+ "]" +:+ rest) with
            | Some (vs, r3) => Some (JString x :: vs, r3)
            | None => None
            end = Some (JString <$> x :: y :: l, rest)).
    inversion Hl as [| ? ? Hy Hl']; subst.
    rewrite IH; [reflexivity | assumption | assumption |].
    rewrite element_lines_cons in Hf. unfold quote in Hf.
    rewrite !length_append in Hf. cbn [String.length] in Hf. lia.
Qed.

(** One member of an object, read from the facts about its parts. *)
Lemma parse_members_last (f : nat) (s s1 key r1 r2 r3 r4 : string) (v : json) :
  skip_space s = String (ascii_of_N 34) s1 ->
  unquote s1 = Some (key, r1) ->
  skip_space r1 = String (ascii_of_N 58) r2 ->
  parse_value f r2 = Some (v, r3) ->
  skip_space r3 = String (ascii_of_N 125) r4 ->
  parse_members (S f) s = Some ([(key, v)], r4).
Proof.
  intros H1 H2 H3 H4 H5. cbn [parse_members].
  rewrite H1. change (is_byte 34 (ascii_of_N 34)) with true. cbn iota.
  rewrite H2, H3. change (is_byte 58 (ascii_of_N 58)) with true. cbn iota.
  rewrite H4, H5. reflexivity.
Qed.

Lemma parse_members_more (f : nat) (s s1 key r1 r2 r3 r4 r5 : string)
  (v : json) (ms : list (string * json)) :
  skip_space s = String (ascii_of_N 34) s1 ->
  unquote s1 = Some (key, r1) ->
  skip_space r1 = String (ascii_of_N 58) r2 ->
  parse_value f r2 = Some (v, r3) ->
  skip_space r3 = String (ascii_of_N 44) r4 ->
  parse_members f r4 = Some (ms, r5) ->
  parse_members (S f) s = Some ((key, v) :: ms, r5).
Proof.
  intros H1 H2 H3 H4 H5 H6. cbn [parse_members].
  rewrite H1. change (is_byte 34 (ascii_of_N 34)) with true. cbn iota.
  rewrite H2, H3. change (is_byte 58 (ascii_of_N 58)) with true. cbn iota.
  rewrite H4, H5. change (is_byte 44 (ascii_of_N 44)) with true. cbn iota.
  rewrite H6. reflexivity.
Qed.

Lemma parse_value_array (f : nat) (s s1 r rest : string) (c : ascii)
  (vs : list json) :
  skip_space s = String (ascii_of_N 91) s1 ->
  skip_space s1 = String c r -> is_byte 93 c = false ->
  parse_elements f s1 = Some (vs, rest) ->
  parse_value (S f) s = Some (JArray vs, rest).
Proof.
  intros H1 H2 H3 H4. cbn [parse_value]. rewrite H1.
  change (is_byte 34 (ascii_of_N 91)) with false.
  change (is_byte 123 (ascii_of_N 91)) with false.
  change (is_byte 91 (ascii_of_N 91)) with true. cbn iota.
  rewrite H2, H3, H4. reflexivity.
Qed.

Lemma parse_value_object (f : nat) (s s1 r rest : string) (c : ascii)
  (ms : list (string * json)) :
  skip_space s = String (ascii_of_N 123) s1 ->
  skip_space s1 = String c r -> is_byte 125 c = false ->
  parse_members f s1 = Some (ms, rest) ->
  parse_value (S f) s = Some (JObject ms, rest).
Proof.
  intros H1 H2 H3 H4. cbn [parse_value]. rewrite H1.
  change (is_byte 34 (ascii_of_N 123)) with false.
  change (is_byte 123 (ascii_of_N 123)) with true. cbn iota.
  rewrite H2, H3, H4. reflexivity.
Qed.

(** The text of an array of strings at the first level. *)
Lemma indent_value_strings (x : string) (l : list string) :
  indent_value "  " "  " (JArray (JString <$> x :: l))
  = "[" +:+ newline +:+ "    " +:+ element_lines "    " (x :: l)
    +:+ newline +:+ "  " +:+ "]".
Proof.
  unfold element_lines. rewrite <- (map_indent_strings "    " "  " (x :: l)).
  reflexivity.
Qed.

Lemma element_lines_head (inner x : string) (l : list string) :
  exists t : string, element_lines inner (x :: l) = String (ascii_of_N 34) t.
Proof. destruct l; eexists; reflexivity. Qed.

(** The value of a member after the colon and the space, read back. *)
Lemma parse_value_plain (v : json) (f : nat) (rest : string) :
  plain_value v ->
  (String.length (indent_value "  " "  " v) < f)%nat ->
  parse_value f (" " +:+ indent_value "  " "  " v +:+ rest) = Some (v, rest).
Proof.
  intros [(s & -> & Hs) | [-> | (x & l & -> & Hl)]] Hf.
  - destruct f as [| f]; [lia |].
    exact (proj2 (parse_value_quote f s EmptyString Hs) rest).
  - destruct f as [| f]; [lia |]. reflexivity.
  - rewrite indent_value_strings in *.
    destruct f as [| f]; [lia |].
    rewrite !length_append in Hf. cbn [String.length] in Hf.
    rewrite !append_assoc.
    destruct (element_lines_head "    " x l) as [t Ht].
    inversion Hl as [| ? ? Hx Hl']; subst.
    eapply parse_value_array.
    + reflexivity.
    + rewrite Ht. reflexivity.
    + reflexivity.
    + rewrite <- !append_assoc.
      rewrite !append_assoc.
      apply parse_elements_strings; [assumption | assumption | lia].
Qed.

Lemma member_lines_cons (kv kv' : string * json) (ms : list (string * json)) :
  member_lines (kv :: kv' :: ms)
  = member_line kv +:+ "," +:+ newline +:+ "  " +:+ member_lines (kv' :: ms).
Proof. reflexivity. Qed.

(** The members of an object as [indent_value] lays them out at the
    first level, read back. *)
Lemma parse_members_plain (ms : list (string * json)) :
  forall (kv : string * json) (f : nat) (rest : string),
    plain_member kv -> Forall plain_member ms ->
    (String.length (member_lines (kv :: ms)) < f)%nat ->
    parse_members f
      (newline +:+ "  " +:+ member_lines (kv :: ms)
       +:+ newline +:+ "}" +:+ rest)
    = Some (kv :: ms, rest).
Proof.
  induction ms as [| kv' ms IH]; intros [k v] f rest [Hk Hv] Hms Hf;
    cbn [fst snd] in Hk, Hv.
  - destruct f as [| f]; [lia |].
    change (member_lines [(k, v)]) with (member_line (k, v)) in *.
    unfold member_line, quote in *. cbn [fst snd] in *.
    rewrite !length_append in Hf. cbn [String.length] in Hf.
    rewrite !append_assoc.
    eapply parse_members_last.
    + reflexivity.
    + apply (unquote_escape _ k (le_n _) Hk).
    + reflexivity.
    + apply parse_value_plain; [assumption | lia].
    + reflexivity.
  - destruct f as [| f]; [lia |].
    rewrite member_lines_cons in *.
    unfold member_line at 1, quote at 1. unfold member_line at 1, quote at 1 in Hf.
    cbn [fst snd] in *.
    rewrite !length_append in Hf. cbn [String.length] in Hf.
    rewrite !append_assoc.
    inversion Hms as [| ? ? Hkv' Hms']; subst.
    eapply parse_members_more.
    + reflexivity.
    + apply (unquote_escape _ k (le_n _) Hk).
    + reflexivity.
    + apply parse_value_plain; [assumption | lia].
    + reflexivity.
    + rewrite <- !append_assoc. rewrite !append_assoc.
      apply IH; [assumption | assumption | lia].
Qed.

Lemma member_lines_head (kv : string * json) (ms : list (string * json)) :
  exists t : string, member_lines (kv :: ms) = String (ascii_of_N 34) t.
Proof. destruct ms; eexists; reflexivity. Qed.

(** The text of an object with members. *)
Lemma indent_value_members (kv : string * json) (ms : list (string * json)) :
  indent_value EmptyString "  " (JObject (kv :: ms))
  = "{" +:+ newline +:+ "  " +:+ member_lines (kv :: ms) +:+ newline +:+ "}".
Proof. reflexivity. Qed.

(** [go_parse] reads back the text of an object of plain members. *)
Lemma go_parse_go_indent (ms : list (string * json)) :
  Forall plain_member ms ->
  go_parse (go_indent EmptyString "  " (JObject ms)) = Ok (JObject ms).
Proof.
  intros Hms. destruct ms as [| kv ms]; [reflexivity |].
  inversion Hms as [| ? ? Hkv Hms']; subst.
  unfold go_parse, go_indent. rewrite indent_value_members.
  destruct (member_lines_head kv ms) as [t Ht].
  assert (H : parse_value
                 (S (String.length
                       ("{" +:+ newline +:+ "  " +:+ member_lines (kv :: ms)
                        +:+ newline +:+ "}")))
                 ("{" +:+ newline +:+ "  " +:+ member_lines (kv :: ms)
                  +:+ newline +:+ "}")
               = Some (JObject (kv :: ms), EmptyString)).
  { apply (parse_value_object _ _
             (newline +:+ "  " +:+ member_lines (kv :: ms) +:+ newline +:+ "}"
              +:+ EmptyString)
             (t +:+ newline +:+ "}") EmptyString (ascii_of_N 34)).
    - reflexivity.
    - rewrite Ht. reflexivity.
    - reflexivity.
    - apply parse_members_plain; [assumption | assumption |].
      rewrite !length_append. cbn [String.length]. lia. }
  rewrite H. reflexivity.
Qed.

Lemma plain_omitempty_string (f : field) (s : string) :
  valid_utf8 s = true -> Forall plain_member (omitempty_string f s).
Proof.
  intros Hs. unfold omitempty_string. destruct (nonempty s); [| constructor].
  constructor; [split; cbn [fst snd] | constructor].
  - destruct f; reflexivity.
  - left. exists s. split; [reflexivity | exact Hs].
Qed.

Lemma plain_omitempty_bool (f : field) (b : bool) :
  Forall plain_member (omitempty_bool f b).
Proof.
  unfold omitempty_bool. destruct b; [| constructor].
  constructor; [split; cbn [fst snd] | constructor].
  - destruct f; reflexivity.
  - right. left. reflexivity.
Qed.

Lemma plain_omitempty_strings (f : field) (l : option (list string)) :
  Forall (fun s => valid_utf8 s = true) (default [] l) ->
  Forall plain_member (omitempty_strings f l).
Proof.
  intros Hl. destruct l as [[| x l] |]; cbn [omitempty_strings];
    [constructor | | constructor].
  constructor; [split; cbn [fst snd] | constructor].
  - destruct f; reflexivity.
  - right. right. exists x, l. split; [reflexivity | exact Hl].
Qed.

(** Every member of the object of a configuration with strings of valid
    UTF-8 is plain. *)
Lemma plain_Config_json (cfg : Config) :
  valid_utf8_Config cfg ->
  exists ms : list (string * json),
    Config_json cfg = JObject ms /\ Forall plain_member ms.
Proof.
  intros [Hs Hl]. eexists. split; [reflexivity |].
  repeat apply Forall_app_2;
    first [ apply plain_omitempty_bool
          | apply plain_omitempty_strings; exact Hl
          | idtac ].
  - apply plain_omitempty_string, (Hs FAccessToken).
  - apply plain_omitempty_string, (Hs FClientID).
  - apply plain_omitempty_string, (Hs FClientSecret).
  - apply plain_omitempty_string, (Hs FPassword).
  - apply plain_omitempty_string, (Hs FRefreshToken).
  - apply plain_omitempty_string, (Hs FToken).
  - apply plain_omitempty_string, (Hs FTokenURL).
  - apply plain_omitempty_string, (Hs FURL).
  - apply plain_omitempty_string, (Hs FUser).
Qed.

(** The text that [json.MarshalIndent] writes for a configuration with
    strings of valid UTF-8 is read back as the document it was written
    from. *)
Lemma go_parse_Config_json (cfg : Config) :
  valid_utf8_Config cfg ->
  go_parse (go_indent EmptyString "  " (Config_json cfg))
  = Ok (Config_json cfg).
Proof.
  intros Hcfg. destruct (plain_Config_json cfg Hcfg) as (ms & -> & Hms).
  apply go_parse_go_indent, Hms.
Qed.

(** C8, as amended: a configuration whose strings are valid UTF-8 and
    whose [Scopes] is nil or has elements, once [Save] has written it
    without an error, is loaded back by [Load] from the same location equal
    to the one saved, fields that were left out included, and without an
    error, when the system lets the file be checked and read.  The text is
    the one of [json.MarshalIndent] and is read as [json.Unmarshal] reads
    it. *)
Theorem Save_Load_roundtrip (equalFold : string -> string -> bool)
  (UnmarshalTypeError : json -> option field -> error)
  (filepath_Join : list string -> string) (os os' : OS) (cfg : Config) :
  valid_utf8_Config cfg ->
  Scopes cfg <> Some [] ->
  Save go_indent filepath_Join os cfg = (os', None) ->
  refuses os OpStat (fst (Location filepath_Join os)) = None ->
  refuses os OpRead (fst (Location filepath_Join os)) = None ->
  Load go_parse equalFold UnmarshalTypeError filepath_Join os'
  = (Some cfg, None).
Proof.
  intros Hcfg Hsc Hsave Hstat Hread.
  rewrite (Load_after_Save go_indent go_parse equalFold UnmarshalTypeError
             filepath_Join os os' cfg (Config_json cfg) Hsave Hstat Hread
             (go_parse_Config_json cfg Hcfg)).
  destruct (Config_json cfg) as [| | | | | ms] eqn:Hjson; try discriminate.
  rewrite (decode_Config_json equalFold UnmarshalTypeError cfg ms Hsc Hjson).
  reflexivity.
Qed.

(** ** The properties on the sample data *)

(** C1 on a record with user and password whose two tokens do not
    decode. *)
Lemma Armed_static_credentials_witness :
  Armed amd64_indefinite sample_parser
    (with_password "t.broken" "t.broken") sample_now = (true, None).
Proof.
  apply Armed_static_credentials.
  left. split; discriminate.
Defined.

(** C2 as it was stated fails for a clock 4 seconds before the epoch: the
    [exp] claim that equals [now] plus 4 seconds is then zero, and the
    record is armed. *)
Lemma Armed_access_token_threshold_counterexample :
  let cfg := tokens_only "t.zero" EmptyString in
  let now := - 4 * Second in
  only_access_token cfg "t.zero" /\
  decodes_to sample_parser "t.zero" {[ "exp" := VFloat64 (S754_zero false) ]} /\
  float64_is_instant (S754_zero false) (now + 4 * Second) /\
  float64_trunc (S754_zero false) = Some ((now + 4 * Second) / Second) /\
  Armed amd64_indefinite sample_parser cfg now = (true, None) /\
  Armed amd64_indefinite sample_parser cfg now <> (false, None).
Proof.
  cbv zeta. repeat split; try reflexivity; discriminate.
Qed.

(** C2, as amended, one nanosecond after [sample_now] on the tokens that
    expire 6 and 4 seconds after [sample_now], and at [sample_now] on the
    token that has exactly 5 seconds left. *)
Lemma Armed_access_token_threshold_witness :
  Armed amd64_indefinite sample_parser
    (tokens_only "t.plus6" EmptyString) (sample_now + 1) = (true, None) /\
  Armed amd64_indefinite sample_parser
    (tokens_only "t.plus4" EmptyString) (sample_now + 1) = (false, None) /\
  Armed amd64_indefinite boundary_parser
    (tokens_only "t.plus5" EmptyString) sample_now = (false, None).
Proof.
  split; [|split].
  - apply (Armed_access_token_threshold amd64_indefinite sample_parser
             (tokens_only "t.plus6" EmptyString) "t.plus6"
             {[ "exp" := VFloat64 (float64_of_pos 1553385606) ]}
             (float64_of_pos 1553385606) 1553385606 (sample_now + 1)
             ltac:(repeat split; try reflexivity; discriminate)
             ltac:(reflexivity) ltac:(reflexivity)
             ltac:(split; [reflexivity | split; apply Z.leb_le; reflexivity])).
    reflexivity.
  - apply (Armed_access_token_threshold amd64_indefinite sample_parser
             (tokens_only "t.plus4" EmptyString) "t.plus4"
             {[ "exp" := VFloat64 (float64_of_pos 1553385604) ]}
             (float64_of_pos 1553385604) 1553385604 (sample_now + 1)
             ltac:(repeat split; try reflexivity; discriminate)
             ltac:(reflexivity) ltac:(reflexivity)
             ltac:(split; [reflexivity | split; apply Z.leb_le; reflexivity])).
    + reflexivity.
    + reflexivity.
  - apply (proj2 (proj1 (proj2
             (Armed_access_token_threshold amd64_indefinite boundary_parser
                (tokens_only "t.plus5" EmptyString) "t.plus5"
                {[ "exp" := VFloat64 (float64_of_pos 1553385605) ]}
                (float64_of_pos 1553385605) 1553385605 sample_now
                ltac:(repeat split; try reflexivity; discriminate)
                ltac:(reflexivity) ltac:(reflexivity)
                ltac:(split; [reflexivity
                             | split; apply Z.leb_le; reflexivity]))))).
    split; [reflexivity | apply Z.leb_le; reflexivity].
Defined.

(** C3 as it was stated fails for a record that also has a user and a
    password: the access token does not decode, and the record is armed
    without error. *)
Lemma Armed_access_token_error_counterexample :
  let cfg := with_password "t.broken" "t.plus11" in
  AccessToken cfg <> EmptyString /\
  tokenExpiry amd64_indefinite sample_parser (AccessToken cfg) sample_now
    = (false, 0,
       Some (Errorf
               "cant parse token: token contains an invalid number of segments"))
  /\
  Armed amd64_indefinite sample_parser cfg sample_now = (true, None).
Proof.
  cbv zeta. repeat split; try reflexivity; discriminate.
Qed.

(** C3, as amended, on a record with a broken access token and a good
    refresh token. *)
Lemma Armed_access_token_error_witness :
  Armed amd64_indefinite sample_parser
    (tokens_only "t.broken" "t.plus11") sample_now
  = (false,
     Some (Errorf
             "cant parse token: token contains an invalid number of segments")).
Proof.
  apply (Armed_access_token_error amd64_indefinite sample_parser
           (tokens_only "t.broken" "t.plus11") sample_now false 0).
  - reflexivity.
  - reflexivity.
  - discriminate.
  - reflexivity.
Defined.

(** C4 on an access token that expired an hour ago and a refresh token
    with 11 seconds left. *)
Lemma Armed_falls_through_to_refresh_token_witness :
  Armed amd64_indefinite sample_parser
    (tokens_only "t.past" "t.plus11") sample_now = (true, None).
Proof.
  apply (Armed_falls_through_to_refresh_token amd64_indefinite sample_parser
           (tokens_only "t.past" "t.plus11") sample_now
           (- 3600 * Second) true (11 * Second)).
  - repeat split; reflexivity.
  - discriminate.
  - discriminate.
  - reflexivity.
  - apply Z.leb_le. reflexivity.
  - reflexivity.
  - right. apply Z.ltb_lt. reflexivity.
Defined.

(** C5 as it was stated fails for a clock 9 seconds before the epoch. *)
Lemma Armed_refresh_token_threshold_counterexample :
  let cfg := tokens_only EmptyString "t.zero" in
  let now := - 9 * Second in
  only_refresh_token cfg "t.zero" /\
  decodes_to sample_parser "t.zero" {[ "exp" := VFloat64 (S754_zero false) ]} /\
  float64_is_instant (S754_zero false) (now + 9 * Second) /\
  float64_trunc (S754_zero false) = Some ((now + 9 * Second) / Second) /\
  Armed amd64_indefinite sample_parser cfg now = (true, None) /\
  Armed amd64_indefinite sample_parser cfg now <> (false, None).
Proof.
  cbv zeta. repeat split; try reflexivity; discriminate.
Qed.

(** C5, as amended, one nanosecond after [sample_now] on the tokens that
    expire 11 and 9 seconds after [sample_now], and at [sample_now] on the
    token that has exactly 10 seconds left. *)
Lemma Armed_refresh_token_threshold_witness :
  Armed amd64_indefinite sample_parser
    (tokens_only EmptyString "t.plus11") (sample_now + 1) = (true, None) /\
  Armed amd64_indefinite sample_parser
    (tokens_only EmptyString "t.plus9") (sample_now + 1) = (false, None) /\
  Armed amd64_indefinite boundary_parser
    (tokens_only EmptyString "t.plus10") sample_now = (false, None).
Proof.
  split; [|split].
  - apply (Armed_refresh_token_threshold amd64_indefinite sample_parser
             (tokens_only EmptyString "t.plus11") "t.plus11"
             {[ "exp" := VFloat64 (float64_of_pos 1553385611) ]}
             (float64_of_pos 1553385611) 1553385611 (sample_now + 1)
             ltac:(repeat split; try reflexivity; discriminate)
             ltac:(reflexivity) ltac:(reflexivity)
             ltac:(split; [reflexivity | split; apply Z.leb_le; reflexivity])).
    reflexivity.
  - apply (Armed_refresh_token_threshold amd64_indefinite sample_parser
             (tokens_only EmptyString "t.plus9") "t.plus9"
             {[ "exp" := VFloat64 (float64_of_pos 1553385609) ]}
             (float64_of_pos 1553385609) 1553385609 (sample_now + 1)
             ltac:(repeat split; try reflexivity; discriminate)
             ltac:(reflexivity) ltac:(reflexivity)
             ltac:(split; [reflexivity | split; apply Z.leb_le; reflexivity])).
    + reflexivity.
    + reflexivity.
  - apply (proj2 (proj1 (proj2
             (Armed_refresh_token_threshold amd64_indefinite boundary_parser
                (tokens_only EmptyString "t.plus10") "t.plus10"
                {[ "exp" := VFloat64 (float64_of_pos 1553385610) ]}
                (float64_of_pos 1553385610) 1553385610 sample_now
                ltac:(repeat split; try reflexivity; discriminate)
                ltac:(reflexivity) ltac:(reflexivity)
                ltac:(split; [reflexivity
                             | split; apply Z.leb_le; reflexivity]))))).
    split; [reflexivity | apply Z.leb_le; reflexivity].
Defined.

(** C6 on the token whose [exp] is zero, as access token and as refresh
    token, two centuries apart. *)
Lemma tokenExpiry_zero_exp_never_expires_witness :
  tokenExpiry amd64_indefinite sample_parser "t.zero" sample_now
    = (false, 0, None) /\
  Armed amd64_indefinite sample_parser
    (tokens_only "t.zero" EmptyString) sample_now = (true, None) /\
  Armed amd64_indefinite sample_parser
    (tokens_only EmptyString "t.zero") (200 * 365 * 86400 * Second)
    = (true, None).
Proof.
  assert (H : forall now,
             tokenExpiry amd64_indefinite sample_parser "t.zero" now
               = (false, 0, None) /\
             (forall cfg : Config,
                only_access_token cfg "t.zero" \/ only_refresh_token cfg "t.zero" ->
                Armed amd64_indefinite sample_parser cfg now = (true, None))).
  { intros now.
    apply (tokenExpiry_zero_exp_never_expires amd64_indefinite sample_parser
             "t.zero" {[ "exp" := VFloat64 (S754_zero false) ]} false now);
      reflexivity. }
  split; [apply H | split].
  - apply H. left. repeat split; try reflexivity; discriminate.
  - apply H. right. repeat split; try reflexivity; discriminate.
Defined.

(** C7 on a token without [exp] and on a token whose [exp] is a
    string. *)
Lemma tokenExpiry_exp_claim_errors_witness :
  Armed amd64_indefinite sample_parser
    (tokens_only "t.noexp" EmptyString) sample_now
    = (false, Some (Errorf "token doesn't contain the 'exp' claim")) /\
  tokenExpiry amd64_indefinite sample_parser "t.textexp" sample_now
    = (false, 0,
       Some (Errorf "expected floating point 'exp' but got string")).
Proof.
  split.
  - apply (proj1 (tokenExpiry_exp_claim_errors amd64_indefinite sample_parser
             "t.noexp" {[ "sub" := VString "alice" ]} sample_now
             ltac:(reflexivity)) ltac:(reflexivity)).
    left. repeat split; try reflexivity; discriminate.
  - apply (proj2 (tokenExpiry_exp_claim_errors amd64_indefinite sample_parser
             "t.textexp" {[ "exp" := VString "1553385606" ]} sample_now
             ltac:(reflexivity)) (VString "1553385606")
             ltac:(reflexivity) ltac:(discriminate)).
Defined.

(** C8 as it was stated fails on two records that [Save] writes without
    an error on a system that refuses nothing.  A password with the byte
    [0xff], which is not UTF-8, is written with the replacement character
    in its place and is loaded back as another string; a [Scopes] that is a
    slice without elements is left out of the file and is loaded back as
    nil. *)
Lemma Save_Load_roundtrip_counterexample :
  (let cfg := sample_config_not_utf8 in
   let saved := Save go_indent slash_Join sample_os cfg in
   snd saved = None /\
   files (fst saved) !! "/home/alice/.uhc.json"
   = Some ("{" +:+ newline
           +:+ "  " +:+ dquote +:+ "password" +:+ dquote +:+ ": "
           +:+ dquote +:+ "a\" +:+ "ufffdb" +:+ dquote +:+ "," +:+ newline
           +:+ "  " +:+ dquote +:+ "user" +:+ dquote +:+ ": "
           +:+ dquote +:+ "alice" +:+ dquote +:+ newline +:+ "}") /\
   Load go_parse ascii_equalFold plain_UnmarshalTypeError slash_Join
     (fst saved)
   = (Some (set_string FPassword ("a" +:+ replacement +:+ "b") cfg), None) /\
   set_string FPassword ("a" +:+ replacement +:+ "b") cfg <> cfg) /\
  (let cfg := sample_config_no_scopes in
   let saved := Save go_indent slash_Join sample_os cfg in
   snd saved = None /\
   files (fst saved) !! "/home/alice/.uhc.json"
   = Some ("{" +:+ newline
           +:+ "  " +:+ dquote +:+ "user" +:+ dquote +:+ ": "
           +:+ dquote +:+ "alice" +:+ dquote +:+ newline +:+ "}") /\
   Load go_parse ascii_equalFold plain_UnmarshalTypeError slash_Join
     (fst saved)
   = (Some (set_Scopes None cfg), None) /\
   set_Scopes None cfg <> cfg).
Proof.
  cbv zeta. repeat split; try (vm_compute; reflexivity); discriminate.
Qed.

(** C8, as amended, on a record with characters that the encoder
    escapes or writes on several bytes, saved on the sample system. *)
Lemma Save_Load_roundtrip_witness :
  Load go_parse ascii_equalFold plain_UnmarshalTypeError slash_Join
    (fst (Save go_indent slash_Join sample_os sample_config_escapes))
  = (Some sample_config_escapes, None).
Proof.
  apply (Save_Load_roundtrip ascii_equalFold plain_UnmarshalTypeError
           slash_Join sample_os _ sample_config_escapes).
  - split; [intros f; destruct f; reflexivity | repeat constructor].
  - discriminate.
  - reflexivity.
  - reflexivity.
  - reflexivity.
Defined.

(** C9 as it was stated fails when the home directory is a regular
    file: no configuration file exists, but [stat] and [remove] fail with
    [ENOTDIR], which is not the error of a missing file, and both [Load]
    and [Remove] return an error. *)
Lemma Load_Remove_missing_file_counterexample :
  let os := sample_os_home_is_file in
  let file := "/etc/passwd/.uhc.json" in
  Location slash_Join os = (file, None) /\
  files os !! file = None /\
  Load (table_json_parse []) ascii_equalFold plain_UnmarshalTypeError
    slash_Join os
  = (None,
     Some (Errorf ("can't check if config file '/etc/passwd/.uhc.json' "
                   +:+ "exists: /etc/passwd/.uhc.json: not a directory"))) /\
  Remove slash_Join os
  = (os, Some (ErrOther "/etc/passwd/.uhc.json: not a directory")).
Proof.
  cbv zeta. repeat split; reflexivity.
Qed.

(** C9, as amended, on the sample system, which has no configuration
    file. *)
Lemma Load_Remove_missing_file_witness :
  Load (table_json_parse []) ascii_equalFold plain_UnmarshalTypeError
    slash_Join sample_os = (None, None) /\
  Remove slash_Join sample_os = (sample_os, None).
Proof.
  apply (Load_Remove_missing_file (table_json_parse []) ascii_equalFold
           plain_UnmarshalTypeError slash_Join sample_os
           "/home/alice/.uhc.json").
  - reflexivity.
  - reflexivity.
  - intros err. discriminate.
Defined.

(** ** The further properties on the sample data *)

(** X3 on two records that differ in every field that is not a
    credential. *)
Lemma Armed_same_credentials_witness :
  Armed amd64_indefinite sample_parser sample_config sample_now
  = Armed amd64_indefinite sample_parser sample_config_elsewhere sample_now.
Proof.
  apply Armed_same_credentials. repeat split; reflexivity.
Defined.

(** X4 on the token that expired an hour before [sample_now]. *)
Lemma tokenExpiry_results_wf_witness :
  MinInt64 <= - 3600 * Second <= MaxInt64.
Proof.
  apply (tokenExpiry_results_wf amd64_indefinite sample_parser
           "t.past" sample_now true (- 3600 * Second) None).
  reflexivity.
Defined.

(** X5 on the token with 6 seconds left at [sample_now], one second
    later. *)
Lemma tokenExpiry_time_passes_witness :
  exists left' : Duration,
    tokenExpiry amd64_indefinite sample_parser "t.plus6"
      (sample_now + Second) = (true, left', None) /\
    left' <= 6 * Second.
Proof.
  apply (tokenExpiry_time_passes amd64_indefinite sample_parser
           "t.plus6" sample_now (sample_now + Second) true (6 * Second) None).
  - apply Z.leb_le. reflexivity.
  - reflexivity.
Defined.

(** X6 on the record that is not armed at [sample_now], an hour later. *)
Lemma Armed_time_passes_witness :
  Armed amd64_indefinite sample_parser
    (tokens_only "t.plus4" "t.plus9") (sample_now + 3600 * Second)
  = (false, None).
Proof.
  apply (Armed_time_passes amd64_indefinite sample_parser
           (tokens_only "t.plus4" "t.plus9") sample_now
           (sample_now + 3600 * Second)).
  - apply Z.leb_le. reflexivity.
  - reflexivity.
Defined.

(** X7 on the system without home directory. *)
Lemma no_home_no_file_access_witness :
  Load (table_json_parse []) ascii_equalFold plain_UnmarshalTypeError
    slash_Join sample_os_homeless = (None, Some no_home) /\
  Save plain_indent slash_Join sample_os_homeless sample_config
    = (sample_os_homeless, Some no_home).
Proof.
  destruct (no_home_no_file_access plain_indent (table_json_parse [])
              ascii_equalFold plain_UnmarshalTypeError slash_Join
              sample_os_homeless eq_refl) as (_ & HL & HS & _).
  split; [exact HL | apply HS].
Defined.

(** X9 on the system whose configuration file is not JSON. *)
Lemma Load_invalid_json_witness :
  Load (table_json_parse []) ascii_equalFold plain_UnmarshalTypeError
    slash_Join sample_os_garbled
  = (Some new_Config,
     Some (Errorf ("can't parse config file '/home/alice/.uhc.json': "
                   +:+ "invalid character looking for beginning of value"))).
Proof.
  apply (Load_invalid_json (table_json_parse []) ascii_equalFold
           plain_UnmarshalTypeError slash_Join sample_os_garbled
           "/home/alice/.uhc.json" "not json"
           (ErrOther "invalid character looking for beginning of value"));
    reflexivity.
Defined.

(** X10 on the system whose home directory cannot be searched. *)
Lemma stat_error_Load_stops_Remove_goes_on_witness :
  Load (table_json_parse []) ascii_equalFold plain_UnmarshalTypeError
    slash_Join sample_os_no_stat
  = (None,
     Some (Errorf ("can't check if config file '/home/alice/.uhc.json' "
                   +:+ "exists: "
                   +:+ "stat /home/alice/.uhc.json: permission denied"))) /\
  Remove slash_Join sample_os_no_stat
  = os_Remove sample_os_no_stat "/home/alice/.uhc.json".
Proof.
  apply (stat_error_Load_stops_Remove_goes_on (table_json_parse [])
           ascii_equalFold plain_UnmarshalTypeError slash_Join
           sample_os_no_stat "/home/alice/.uhc.json"
           (ErrOther "stat /home/alice/.uhc.json: permission denied"));
    reflexivity.
Defined.

(** X13 on the sample record saved first and the empty record saved
    second. *)
Lemma Save_Save_witness :
  Save plain_indent slash_Join
    (fst (Save plain_indent slash_Join sample_os sample_config)) new_Config
  = Save plain_indent slash_Join sample_os new_Config.
Proof.
  apply (Save_Save plain_indent slash_Join sample_os
           (fst (Save plain_indent slash_Join sample_os sample_config))
           sample_config new_Config).
  reflexivity.
Defined.

(** X14 on the sample system, which has no configuration file. *)
Lemma Save_Remove_restores_witness :
  Remove slash_Join
    (fst (Save plain_indent slash_Join sample_os sample_config))
  = (sample_os, None).
Proof.
  apply (Save_Remove_restores plain_indent slash_Join sample_os
           (fst (Save plain_indent slash_Join sample_os sample_config))
           sample_config);
    reflexivity.
Defined.

(** X15 on the system whose configuration file is removed. *)
Lemma Remove_then_nothing_witness :
  Load (table_json_parse []) ascii_equalFold plain_UnmarshalTypeError
    slash_Join (fst (Remove slash_Join sample_os_garbled)) = (None, None) /\
  Remove slash_Join (fst (Remove slash_Join sample_os_garbled))
  = (fst (Remove slash_Join sample_os_garbled), None).
Proof.
  apply (Remove_then_nothing (table_json_parse []) ascii_equalFold
           plain_UnmarshalTypeError slash_Join sample_os_garbled
           (fst (Remove slash_Join sample_os_garbled)));
    reflexivity.
Defined.

(** X18 on two systems that agree on the home directory and on the
    configuration file. *)
Lemma Load_reads_only_config_file_witness :
  Load (table_json_parse []) ascii_equalFold plain_UnmarshalTypeError
    slash_Join sample_os_garbled
  = Load (table_json_parse []) ascii_equalFold plain_UnmarshalTypeError
      slash_Join sample_os_busy.
Proof.
  apply Load_reads_only_config_file; reflexivity.
Defined.

(** X19 on the sample record saved over the file that is not JSON. *)
Lemma Save_writes_json_witness :
  files (fst (Save plain_indent slash_Join sample_os_garbled sample_config))
    !! "/home/alice/.uhc.json"
  = Some (plain_indent EmptyString "  " (Config_json sample_config)).
Proof.
  apply (Save_writes_json plain_indent slash_Join sample_os_garbled
           (fst (Save plain_indent slash_Join sample_os_garbled sample_config))
           sample_config).
  reflexivity.
Defined.
